(** * Rules sync script (scripts/sync-rules.js): model and properties

    The script reads AI_INSTRUCTIONS.md and the topic files of docs/rules/,
    extracts the core standards between two markers and renders three
    aggregate files plus one .mdc file per loaded topic.

    JavaScript strings are sequences of UTF-16 code units; they are modelled
    as lists of code units ([N]), so that [trim], [indexOf], [substring],
    [startsWith], [split] and the three regular expressions of the script
    act on exactly the data the script sees. *)

From Stdlib Require Import String Ascii.
From Stdlib Require Import List NArith Arith Bool Lia.
Import ListNotations.

Set Implicit Arguments.

(** ** JavaScript strings *)

Module Js.

Definition jsstring := list N.

(** An ASCII literal of the source, as code units. *)
Definition lit (s : string) : jsstring :=
  map N_of_ascii (list_ascii_of_string s).
Arguments lit s%_string.

Definition nl : jsstring := [10%N].

Fixpoint eqs (a b : jsstring) : bool :=
  match a, b with
  | [], [] => true
  | x :: a', y :: b' => N.eqb x y && eqs a' b'
  | _, _ => false
  end.

(** [s.startsWith(p)] *)
Fixpoint startsWith (p s : jsstring) : bool :=
  match p, s with
  | [], _ => true
  | _ :: _, [] => false
  | x :: p', y :: s' => N.eqb x y && startsWith p' s'
  end.

(** [s.indexOf(p)]; [None] stands for the result -1. *)
Fixpoint indexOf (p s : jsstring) : option nat :=
  if startsWith p s then Some 0
  else match s with
       | [] => None
       | _ :: s' => option_map S (indexOf p s')
       end.

(** [s.substring(a, b)]: both arguments are clamped to the length and
    swapped when the first is the larger one. *)
Definition substring (a b : nat) (s : jsstring) : jsstring :=
  let a' := Nat.min a (length s) in
  let b' := Nat.min b (length s) in
  let lo := Nat.min a' b' in
  let hi := Nat.max a' b' in
  firstn (hi - lo) (skipn lo s).

(** WhiteSpace and LineTerminator code points of ECMAScript, the characters
    that [trim] strips; all of them are single code units. *)
Definition isWhiteSpace (c : N) : bool :=
  existsb (N.eqb c)
    [9; 10; 11; 12; 13; 32; 160; 5760; 8232; 8233; 8239; 8287; 12288; 65279]%N
  || (8192 <=? c)%N && (c <=? 8202)%N.

Fixpoint dropWhile (f : N -> bool) (s : jsstring) : jsstring :=
  match s with
  | [] => []
  | c :: s' => if f c then dropWhile f s' else s
  end.

Fixpoint takeWhile (f : N -> bool) (s : jsstring) : jsstring :=
  match s with
  | [] => []
  | c :: s' => if f c then c :: takeWhile f s' else []
  end.

Definition trimStart (s : jsstring) : jsstring := dropWhile isWhiteSpace s.
Definition trimEnd (s : jsstring) : jsstring :=
  rev (dropWhile isWhiteSpace (rev s)).

(** [s.trim()] *)
Definition trim (s : jsstring) : jsstring := trimEnd (trimStart s).

(** [s.split('\n')]: the list of lines, never empty. *)
Fixpoint split_nl (s : jsstring) : list jsstring :=
  match s with
  | [] => [[]]
  | c :: s' =>
      if N.eqb c 10 then [] :: split_nl s'
      else match split_nl s' with
           | l :: ls => (c :: l) :: ls
           | [] => [[c]]
           end
  end.

(** [a.join('\n')] *)
Fixpoint join_nl (ls : list jsstring) : jsstring :=
  match ls with
  | [] => []
  | [l] => l
  | l :: ls' => l ++ nl ++ join_nl ls'
  end.

(** [a.slice(1)] *)
Definition slice1 (ls : list jsstring) : list jsstring := tl ls.

(** JavaScript truthiness of a value that is a string or [null]. *)
Definition truthy (v : option jsstring) : bool :=
  match v with
  | Some (_ :: _) => true
  | _ => false
  end.

(** [s] occurs in [t] as a contiguous block. *)
Definition contains (p s : jsstring) : Prop :=
  exists a b, s = a ++ p ++ b.

End Js.
Import Js.

(** ** Markers and extraction *)

Definition SYNC_START : jsstring := lit "<!-- SYNC_START -->".
Definition SYNC_END : jsstring := lit "<!-- SYNC_END -->".
Definition INCLUDE_START : jsstring := lit "<!-- INCLUDE_RULES:START -->".
Definition INCLUDE_END : jsstring := lit "<!-- INCLUDE_RULES:END -->".

(** The conditions under which the run aborts. *)
Inductive error : Type :=
  | MarkersNotFound    (* Error('SYNC_START or SYNC_END markers not found ...') *)
  | WriteFailed (path : jsstring).
                       (* what fs.mkdirSync or fs.writeFileSync throws *)

(** [text.replace(/<!-- INCLUDE_RULES:START -->[\s\S]*?<!-- INCLUDE_RULES:END -->/g, '')].
    The scan looks for the leftmost start token that has an end token behind
    it; the lazy quantifier stops at the first such end token; the search
    resumes behind the removed region.  When the leftmost start token has no
    end token behind it, no later one has, and the rest is kept.  Each round
    removes at least the two tokens, so [length s] rounds are enough. *)
Fixpoint removeInclude_go (fuel : nat) (s : jsstring) : jsstring :=
  match fuel with
  | O => s
  | S fuel' =>
      match indexOf INCLUDE_START s with
      | None => s
      | Some p =>
          let rest := skipn (p + length INCLUDE_START) s in
          match indexOf INCLUDE_END rest with
          | None => s
          | Some q =>
              firstn p s ++
              removeInclude_go fuel' (skipn (q + length INCLUDE_END) rest)
          end
      end
  end.

Definition removeInclude (s : jsstring) : jsstring :=
  removeInclude_go (length s) s.

(** [extractCoreStandards(content)] *)
Definition extractCoreStandards (content : jsstring) : error + jsstring :=
  match indexOf SYNC_START content, indexOf SYNC_END content with
  | Some syncStart, Some syncEnd =>
      let coreStandards :=
        trim (substring (syncStart + length SYNC_START) syncEnd content) in
      inr (trim (removeInclude coreStandards))
  | _, _ => inl MarkersNotFound
  end.

(** ** Metadata

    The two regular expressions of [extractMetadata] have the shape
    [open ([class]+) close] with [close] starting with a blank, which is not in
    the class: a match at a position takes the whole run of class characters
    behind [open], and [content.match] returns the leftmost match. *)

Definition isDigit (c : N) : bool := (48 <=? c)%N && (c <=? 57)%N.
Definition versionChar (c : N) : bool := isDigit c || N.eqb c 46.   (* [\d.] *)
Definition dateChar (c : N) : bool := isDigit c || N.eqb c 45.      (* [\d-] *)

Definition match_here (opening : jsstring) (cls : N -> bool)
    (closing s : jsstring) : option jsstring :=
  if startsWith opening s then
    let rest := skipn (length opening) s in
    match takeWhile cls rest with
    | [] => None
    | v => if startsWith closing (dropWhile cls rest) then Some v else None
    end
  else None.

(** The first capture group of the leftmost match, [None] for [null]. *)
Fixpoint regex_capture (opening : jsstring) (cls : N -> bool)
    (closing s : jsstring) : option jsstring :=
  match match_here opening cls closing s with
  | Some v => Some v
  | None =>
      match s with
      | [] => None
      | _ :: s' => regex_capture opening cls closing s'
      end
  end.

Definition VERSION_OPEN : jsstring := lit "<!-- VERSION: ".
Definition LAST_UPDATED_OPEN : jsstring := lit "<!-- LAST_UPDATED: ".
Definition COMMENT_CLOSE : jsstring := lit " -->".

Definition versionMatch (content : jsstring) : option jsstring :=
  regex_capture VERSION_OPEN versionChar COMMENT_CLOSE content.
Definition lastUpdatedMatch (content : jsstring) : option jsstring :=
  regex_capture LAST_UPDATED_OPEN dateChar COMMENT_CLOSE content.

(** A reading of the clock ([new Date()]), by its UTC fields. *)
Record DateTime : Type := {
  year : N; month : N; day : N;
  hours : N; minutes : N; seconds : N; millis : N
}.

(** [k] decimal digits of [n], the zero-padded decimal of a field below
    [10^k]. *)
Fixpoint dec (k : nat) (n : N) : jsstring :=
  match k with
  | O => []
  | S k' => dec k' (n / 10) ++ [(48 + n mod 10)%N]
  end.

(** [d.toISOString()]: YYYY-MM-DDTHH:mm:ss.sssZ in UTC; years above 9999
    are written with a sign and six digits. *)
Definition isoDate (d : DateTime) : jsstring :=
  (if (year d <=? 9999)%N then dec 4 (year d) else lit "+" ++ dec 6 (year d))
  ++ lit "-" ++ dec 2 (month d) ++ lit "-" ++ dec 2 (day d).

Definition isoTime (d : DateTime) : jsstring :=
  dec 2 (hours d) ++ lit ":" ++ dec 2 (minutes d) ++ lit ":"
  ++ dec 2 (seconds d) ++ lit "." ++ dec 3 (millis d) ++ lit "Z".

Definition toISOString (d : DateTime) : jsstring :=
  isoDate d ++ lit "T" ++ isoTime d.

Definition notT (c : N) : bool := negb (N.eqb c 84).

(** [s.split('T')[0]] *)
Definition split_T_0 (s : jsstring) : jsstring := takeWhile notT s.

Record Metadata : Type := { version : jsstring; lastUpdated : jsstring }.

(** ** Topics *)

Record RuleTopic : Type := { file : jsstring; name : jsstring; key : jsstring }.

Definition RULE_FILES : list RuleTopic := [
  {| file := lit "component-standards.md"; name := lit "Component Standards"; key := lit "component-standards" |};
  {| file := lit "folder-structure.md"; name := lit "Folder Structure"; key := lit "folder-structure" |};
  {| file := lit "testing.md"; name := lit "Testing"; key := lit "testing" |};
  {| file := lit "routing.md"; name := lit "Routing"; key := lit "routing" |};
  {| file := lit "state-management.md"; name := lit "State Management"; key := lit "state-management" |};
  {| file := lit "api-integration.md"; name := lit "API Integration"; key := lit "api-integration" |};
  {| file := lit "ai-tool-integration.md"; name := lit "AI Tool Integration"; key := lit "ai-tool-integration" |}
].

(** [{ ...ruleInfo, content: ruleContent }] *)
Record LoadedRule : Type := { info : RuleTopic; content : jsstring }.

(** ** Per-topic .mdc content *)

Definition frontmatter (description : jsstring) : jsstring :=
  lit "---" ++ nl
  ++ lit "description: " ++ description ++ nl
  ++ lit "globs: '*.ts,*.tsx,*.js,*.jsx'" ++ nl
  ++ lit "alwaysApply: true" ++ nl
  ++ lit "---" ++ nl
  ++ nl.

(** The body of a .mdc file: the trimmed topic text, without its first line
    when that line starts with "# ". *)
Definition mdcBody (ruleContent : jsstring) : jsstring :=
  let content := trim ruleContent in
  if startsWith (lit "#") content then
    let lines := split_nl content in
    if startsWith (lit "# ") (hd [] lines) then
      trim (join_nl (slice1 lines))
    else content
  else content.

(** [generateMdcContent(ruleContent, ruleName, description)] *)
Definition generateMdcContent (ruleContent ruleName description : jsstring)
    : jsstring :=
  frontmatter description ++ mdcBody ruleContent.

(** ** Aggregate renderers *)

(** [if (rule.content)] on a string. *)
Definition hasContent (rule : LoadedRule) : bool :=
  truthy (Some (content rule)).

(** [rules.forEach(rule => { if (rule.content) { content += line(rule) } })] *)
Definition appendEntries (line : LoadedRule -> jsstring)
    (rules : list LoadedRule) (content0 : jsstring) : jsstring :=
  fold_left
    (fun acc rule => if hasContent rule then acc ++ line rule else acc)
    rules content0.

(** U+26A0 U+FE0F, the warning sign of the banners. *)
Definition WARNING_SIGN : jsstring := [9888; 65039]%N.

Definition generatedBanner : jsstring :=
  lit "**" ++ WARNING_SIGN ++ lit " IMPORTANT: This file is auto-generated from `AI_INSTRUCTIONS.md` and `docs/rules/*.md`. Do not edit manually.**".

Definition linkedEntry (rule : LoadedRule) : jsstring :=
  lit "- **" ++ name (info rule) ++ lit "**: [docs/rules/" ++ file (info rule)
  ++ lit "](docs/rules/" ++ file (info rule) ++ lit ")" ++ nl.

Definition plainEntry (rule : LoadedRule) : jsstring :=
  lit "- " ++ name (info rule) ++ lit ": docs/rules/" ++ file (info rule) ++ nl.

Definition detailedRulesTail : jsstring :=
  lit "- **Full Rules**: [docs/README.md](docs/rules/README.md)" ++ nl
  ++ nl
  ++ lit "## Quick Reference" ++ nl
  ++ nl
  ++ lit "For detailed guidelines with examples and checklists:" ++ nl
  ++ nl.

Definition closingSections : jsstring :=
  lit "- Full Rules: docs/README.md" ++ nl
  ++ nl
  ++ lit "## When in Doubt" ++ nl
  ++ nl
  ++ lit "Read the detailed rules in docs/rules/ directory for comprehensive guidelines, examples, and best practices." ++ nl
  ++ nl
  ++ lit "## Single Source of Truth" ++ nl
  ++ nl
  ++ lit "For the complete and authoritative rules, always refer to **`AI_INSTRUCTIONS.md`** at the project root. This file ensures consistency across all AI tools and IDEs." ++ nl.

(** The opening template of the Copilot and Replit documents, which differ
    in the title line only. *)
Definition aggregateHead (title now coreStandards : jsstring)
    (metadata : Metadata) : jsstring :=
  title ++ nl
  ++ nl
  ++ generatedBanner ++ nl
  ++ nl
  ++ lit "**Rules Version:** " ++ version metadata ++ lit "  " ++ nl
  ++ lit "**Last Updated:** " ++ now ++ nl
  ++ nl
  ++ coreStandards ++ nl
  ++ nl
  ++ lit "## Detailed Rules" ++ nl
  ++ nl
  ++ lit "For comprehensive guidelines, refer to the following rule files in `docs/rules/`:" ++ nl
  ++ nl.

(** Body of [generateCopilotInstructions], [now] being the timestamp read at
    its first line. *)
Definition copilotDocument (now coreStandards : jsstring)
    (rules : list LoadedRule) (metadata : Metadata) : jsstring :=
  let content :=
    aggregateHead (lit "# GitHub Copilot Instructions") now coreStandards metadata in
  let content := appendEntries linkedEntry rules content in
  let content := content ++ detailedRulesTail in
  let content := appendEntries plainEntry rules content in
  content ++ closingSections.

(** Body of [generateReplitInstructions]. *)
Definition replitDocument (now coreStandards : jsstring)
    (rules : list LoadedRule) (metadata : Metadata) : jsstring :=
  let content :=
    aggregateHead (lit "# Replit AI Instructions") now coreStandards metadata in
  let content := appendEntries linkedEntry rules content in
  let content := content ++ detailedRulesTail in
  let content := appendEntries plainEntry rules content in
  content ++ closingSections.

Definition cursorBanner : jsstring :=
  lit "**" ++ WARNING_SIGN ++ lit " IMPORTANT: This rule aligns with `AI_INSTRUCTIONS.md` as the single source of truth.**".

Definition cursorHead (coreStandards : jsstring) : jsstring :=
  lit "---" ++ nl
  ++ lit "description: Project-wide development standards and rules for React TypeScript development" ++ nl
  ++ lit "globs: '*.ts,*.tsx,*.js,*.jsx'" ++ nl
  ++ lit "alwaysApply: true" ++ nl
  ++ lit "---" ++ nl
  ++ nl
  ++ lit "# Project Rules for AI Code Generation" ++ nl
  ++ nl
  ++ cursorBanner ++ nl
  ++ nl
  ++ coreStandards ++ nl
  ++ nl
  ++ lit "## Quick Reference" ++ nl
  ++ nl
  ++ lit "For detailed guidelines with examples and checklists, refer to the individual rule files in this directory:" ++ nl
  ++ nl.

Definition cursorSeeEntry (rule : LoadedRule) : jsstring :=
  lit "- **" ++ name (info rule) ++ lit "**: See `.cursor/rules/"
  ++ key (info rule) ++ lit ".mdc`" ++ nl.

Definition cursorFromEntry (rule : LoadedRule) : jsstring :=
  lit "- **" ++ name (info rule) ++ lit "**: `.cursor/rules/" ++ key (info rule)
  ++ lit ".mdc` (from `docs/rules/" ++ file (info rule) ++ lit "`)" ++ nl.

Definition cursorMiddle : jsstring :=
  nl
  ++ lit "## Detailed Rules" ++ nl
  ++ nl
  ++ lit "The following individual rule files contain comprehensive guidelines:" ++ nl
  ++ nl.

Definition cursorClosing : jsstring :=
  nl
  ++ lit "## When in Doubt" ++ nl
  ++ nl
  ++ lit "Read the detailed rules in `docs/rules/` directory or the corresponding `.cursor/rules/*.mdc` files for comprehensive guidelines, examples, and best practices." ++ nl
  ++ nl
  ++ lit "## Single Source of Truth" ++ nl
  ++ nl
  ++ lit "For the complete and authoritative rules, always refer to **`AI_INSTRUCTIONS.md`** at the project root. This file ensures consistency across all AI tools and IDEs." ++ nl.

(** [generateCursorMainRules(coreStandards, rules, metadata)]: it reads no
    clock, and its [metadata] argument is not used. *)
Definition generateCursorMainRules (coreStandards : jsstring)
    (rules : list LoadedRule) (metadata : Metadata) : jsstring :=
  let content := cursorHead coreStandards in
  let content := appendEntries cursorSeeEntry rules content in
  let content := content ++ cursorMiddle in
  let content := appendEntries cursorFromEntry rules content in
  content ++ cursorClosing.

(** ** The run: files, clock, console and process exit

    Paths are written relative to ROOT_DIR.  The environment of a run gives
    the readable files ([None]: [fs.readFileSync] throws), the successive
    readings of the clock, and which writes succeed: [writable done path] tells
    whether [fs.mkdirSync] and [fs.writeFileSync] go through for [path] when
    the run has written the paths [done] so far; otherwise one of them throws.
    A run accumulates the files it wrote and the console lines; a write that
    throws is taken to leave no file. *)

Definition path_join (dir base : jsstring) : jsstring := dir ++ lit "/" ++ base.

Definition AI_INSTRUCTIONS_FILE : jsstring := lit "AI_INSTRUCTIONS.md".
Definition RULES_DIR : jsstring := lit "docs/rules".
Definition COPILOT_FILE : jsstring := lit ".github/copilot-instructions.md".
Definition REPLIT_FILE : jsstring := lit "replit.md".
Definition CURSOR_RULES_DIR : jsstring := lit ".cursor/rules".

Inductive log_line : Type :=
  | Log_Start
  | Err_ReadingFile (path : jsstring)        (* console.error of readFile *)
  | Err_FailedToReadAiInstructions           (* console.error before exit(1) *)
  | Log_Metadata (v u : jsstring)
  | Log_ExtractedCore
  | Log_ReadRule (n : jsstring)
  | Log_SkippedRule (n : jsstring)           (* "(file not found)" *)
  | Log_Loaded (count : nat)
  | Log_GeneratingCopilot
  | Log_GeneratingReplit
  | Log_GeneratingCursorMain
  | Log_GeneratingCursorIndividual
  | Log_Generated (path : jsstring)          (* console.log of writeFile *)
  | Log_Completed (count : nat)              (* success line and summary *)
  | Err_DuringSync (e : error).              (* console.error of the catch *)

Record Env : Type := {
  files : jsstring -> option jsstring;
  clock : nat -> DateTime;
  writable : list jsstring -> jsstring -> bool
}.

Record State : Type := {
  ticks : nat;
  written : list (jsstring * jsstring);
  console : list log_line
}.

Definition initial : State := {| ticks := 0; written := []; console := [] |}.

Inductive Outcome (A : Type) : Type :=
  | Returned (a : A)
  | Exited (code : N)          (* process.exit(code) *)
  | Threw (e : error).         (* an uncaught exception on its way up *)
Arguments Returned {A} a.
Arguments Exited {A} code.
Arguments Threw {A} e.

Definition M (A : Type) : Type := Env -> State -> Outcome A * State.

Definition ret {A} (a : A) : M A := fun _ s => (Returned a, s).

Definition bind {A B} (m : M A) (k : A -> M B) : M B :=
  fun e s =>
    match m e s with
    | (Returned a, s') => k a e s'
    | (Exited c, s') => (Exited c, s')
    | (Threw err, s') => (Threw err, s')
    end.

Notation "x <- m ;; k" := (bind m (fun x => k))
  (at level 61, m at next level, right associativity).
Notation "m >> k" := (bind m (fun _ => k))
  (at level 61, right associativity).

Definition console_log (l : log_line) : M unit :=
  fun _ s =>
    (Returned tt,
     {| ticks := ticks s; written := written s; console := console s ++ [l] |}).

Definition process_exit {A} (code : N) : M A := fun _ s => (Exited code, s).

Definition throw {A} (e : error) : M A := fun _ s => (Threw e, s).

(** [new Date()] *)
Definition newDate : M DateTime :=
  fun e s =>
    (Returned (clock e (ticks s)),
     {| ticks := S (ticks s); written := written s; console := console s |}).

(** [readFile(filePath)] *)
Definition readFile (filePath : jsstring) : M (option jsstring) :=
  fun e s =>
    match files e filePath with
    | Some text => (Returned (Some text), s)
    | None =>
        (Returned None,
         {| ticks := ticks s; written := written s;
            console := console s ++ [Err_ReadingFile filePath] |})
    end.

(** [writeFile(filePath, content)] *)
Definition writeFile (filePath text : jsstring) : M unit :=
  fun e s =>
    if writable e (map fst (written s)) filePath then
      (Returned tt,
       {| ticks := ticks s;
          written := written s ++ [(filePath, text)];
          console := console s ++ [Log_Generated filePath] |})
    else (Threw (WriteFailed filePath), s).

(** [extractMetadata(content)]; the clock is read only when the
    LAST_UPDATED marker is missing. *)
Definition extractMetadata (text : jsstring) : M Metadata :=
  u <- match lastUpdatedMatch text with
       | Some u => ret u
       | None => now <- newDate ;; ret (split_T_0 (toISOString now))
       end ;;
  ret {| version :=
           match versionMatch text with
           | Some v => v
           | None => lit "1.0.0"
           end;
         lastUpdated := u |}.

(** [generateCopilotInstructions(coreStandards, rules, metadata)] *)
Definition generateCopilotInstructions (coreStandards : jsstring)
    (rules : list LoadedRule) (metadata : Metadata) : M jsstring :=
  now <- newDate ;;
  ret (copilotDocument (toISOString now) coreStandards rules metadata).

(** [generateReplitInstructions(coreStandards, rules, metadata)] *)
Definition generateReplitInstructions (coreStandards : jsstring)
    (rules : list LoadedRule) (metadata : Metadata) : M jsstring :=
  now <- newDate ;;
  ret (replitDocument (toISOString now) coreStandards rules metadata).

(** The loop [for (const ruleInfo of RULE_FILES)] of [syncRules], [rules]
    being the array filled so far. *)
Fixpoint loadRules (table : list RuleTopic) (rules : list LoadedRule)
    : M (list LoadedRule) :=
  match table with
  | [] => ret rules
  | ruleInfo :: table' =>
      ruleContent <- readFile (path_join RULES_DIR (file ruleInfo)) ;;
      if truthy ruleContent then
        console_log (Log_ReadRule (name ruleInfo)) >>
        loadRules table'
          (rules ++ [{| info := ruleInfo;
                        content := match ruleContent with
                                   | Some text => text
                                   | None => []
                                   end |}])
      else
        console_log (Log_SkippedRule (name ruleInfo)) >>
        loadRules table' rules
  end.

Definition mdcDescription (rule : LoadedRule) : jsstring :=
  name (info rule) ++ lit " rules for React TypeScript development".

Definition mdcPath (rule : LoadedRule) : jsstring :=
  path_join CURSOR_RULES_DIR (key (info rule) ++ lit ".mdc").

(** The final [rules.forEach] of [syncRules]. *)
Fixpoint writeMdcFiles (rules : list LoadedRule) : M unit :=
  match rules with
  | [] => ret tt
  | rule :: rules' =>
      writeFile (mdcPath rule)
        (generateMdcContent (content rule) (name (info rule))
           (mdcDescription rule)) >>
      writeMdcFiles rules'
  end.

(** [syncRules()], over the topic table [table] ([RULE_FILES] in the
    script). *)
Definition syncRules (table : list RuleTopic) : M unit :=
  console_log Log_Start >>
  aiInstructionsContent <- readFile AI_INSTRUCTIONS_FILE ;;
  match aiInstructionsContent with
  | Some (c :: text') =>
      let text := c :: text' in
      metadata <- extractMetadata text ;;
      console_log (Log_Metadata (version metadata) (lastUpdated metadata)) >>
      coreStandards <-
        match extractCoreStandards text with
        | inr core => ret core
        | inl e => throw e
        end ;;
      console_log Log_ExtractedCore >>
      rules <- loadRules table [] ;;
      console_log (Log_Loaded (length rules)) >>
      console_log Log_GeneratingCopilot >>
      copilotContent <- generateCopilotInstructions coreStandards rules metadata ;;
      writeFile COPILOT_FILE copilotContent >>
      console_log Log_GeneratingReplit >>
      replitContent <- generateReplitInstructions coreStandards rules metadata ;;
      writeFile REPLIT_FILE replitContent >>
      console_log Log_GeneratingCursorMain >>
      writeFile (path_join CURSOR_RULES_DIR (lit "project-standards.mdc"))
        (generateCursorMainRules coreStandards rules metadata) >>
      console_log Log_GeneratingCursorIndividual >>
      writeMdcFiles rules >>
      console_log (Log_Completed (length rules))
  | _ =>
      (* !aiInstructionsContent: null or the empty string *)
      console_log Err_FailedToReadAiInstructions >>
      process_exit 1
  end.

(** What a run leaves behind. *)
Record Run : Type := {
  exit_code : N;
  outputs : list (jsstring * jsstring);
  log : list log_line
}.

(** The script: [try { syncRules() } catch (error) { ...; process.exit(1) }],
    the process ending with code 0 when [syncRules] returns. *)
Definition main (table : list RuleTopic) (e : Env) : Run :=
  match syncRules table e initial with
  | (Returned _, s) =>
      {| exit_code := 0; outputs := written s; log := console s |}
  | (Exited c, s) =>
      {| exit_code := c; outputs := written s; log := console s |}
  | (Threw err, s) =>
      {| exit_code := 1; outputs := written s;
         log := console s ++ [Err_DuringSync err] |}
  end.

(** ** Derived descriptions of a run

    Closed forms of what the loops and the pipeline compute; the section on
    the pipeline proves that the script computes exactly these. *)

(** The lines a [forEach] adds: one per rule with content, in list order. *)
Definition topicIndex (line : LoadedRule -> jsstring)
    (rules : list LoadedRule) : jsstring :=
  concat (map line (filter hasContent rules)).

(** The text behind the first line feed, empty when there is none. *)
Fixpoint afterFirstLine (s : jsstring) : jsstring :=
  match s with
  | [] => []
  | c :: s' => if N.eqb c 10 then s' else afterFirstLine s'
  end.

Definition rulePath (t : RuleTopic) : jsstring := path_join RULES_DIR (file t).

(** The topics of the table that load, in table order. *)
Definition loadedRules (fs : jsstring -> option jsstring)
    (table : list RuleTopic) : list LoadedRule :=
  flat_map
    (fun t => match fs (rulePath t) with
              | Some (c :: text) => [{| info := t; content := c :: text |}]
              | _ => []
              end)
    table.

Definition loadLog (fs : jsstring -> option jsstring) (t : RuleTopic)
    : list log_line :=
  match fs (rulePath t) with
  | Some (_ :: _) => [Log_ReadRule (name t)]
  | Some [] => [Log_SkippedRule (name t)]
  | None => [Err_ReadingFile (rulePath t); Log_SkippedRule (name t)]
  end.

Definition mdcOutput (rule : LoadedRule) : jsstring * jsstring :=
  (mdcPath rule,
   generateMdcContent (content rule) (name (info rule)) (mdcDescription rule)).

(** Clock readings used by [extractMetadata]. *)
Definition metadataTicks (text : jsstring) : nat :=
  match lastUpdatedMatch text with
  | Some _ => 0
  | None => 1
  end.

Definition metadataOf (e : Env) (text : jsstring) : Metadata :=
  {| version :=
       match versionMatch text with
       | Some v => v
       | None => lit "1.0.0"
       end;
     lastUpdated :=
       match lastUpdatedMatch text with
       | Some u => u
       | None => split_T_0 (toISOString (clock e 0))
       end |}.

Definition CURSOR_MAIN_FILE : jsstring :=
  path_join CURSOR_RULES_DIR (lit "project-standards.mdc").

(** The files of a successful run, in the order of the writes. *)
Definition renderAll (table : list RuleTopic) (e : Env)
    (text core : jsstring) : list (jsstring * jsstring) :=
  let rules := loadedRules (files e) table in
  let metadata := metadataOf e text in
  let k := metadataTicks text in
  [ (COPILOT_FILE,
     copilotDocument (toISOString (clock e k)) core rules metadata);
    (REPLIT_FILE,
     replitDocument (toISOString (clock e (S k))) core rules metadata);
    (CURSOR_MAIN_FILE, generateCursorMainRules core rules metadata) ]
  ++ map mdcOutput rules.

Definition successLog (table : list RuleTopic) (e : Env)
    (text : jsstring) : list log_line :=
  let rules := loadedRules (files e) table in
  let metadata := metadataOf e text in
  [Log_Start; Log_Metadata (version metadata) (lastUpdated metadata);
   Log_ExtractedCore]
  ++ flat_map (loadLog (files e)) table
  ++ [Log_Loaded (length rules);
      Log_GeneratingCopilot; Log_Generated COPILOT_FILE;
      Log_GeneratingReplit; Log_Generated REPLIT_FILE;
      Log_GeneratingCursorMain; Log_Generated CURSOR_MAIN_FILE;
      Log_GeneratingCursorIndividual]
  ++ map (fun r => Log_Generated (mdcPath r)) rules
  ++ [Log_Completed (length rules)].

(** A marker [opening value closing] with a non-empty value of class
    characters stands somewhere in [s]. *)
Definition marker_occurs (opening : jsstring) (cls : N -> bool)
    (closing s : jsstring) : Prop :=
  exists pre v post,
    v <> [] /\ forallb cls v = true /\
    s = pre ++ opening ++ v ++ closing ++ post.

(** The number of writes that go through, one after the other, before the
    first one that throws: [done] are the paths written so far, [targets] the
    paths still to be written. *)
Fixpoint successes (ok : list jsstring -> jsstring -> bool)
    (done targets : list jsstring) : nat :=
  match targets with
  | [] => 0
  | p :: rest =>
      if ok done p then S (successes ok (done ++ [p]) rest) else 0
  end.

(** How many of the files of [renderAll] a run gets to write. *)
Definition writtenCount (table : list RuleTopic) (e : Env)
    (text core : jsstring) : nat :=
  successes (writable e) [] (map fst (renderAll table e text core)).

(** A write with the console lines before it and behind it. *)
Record WriteStep : Type := {
  before : list log_line;
  target : jsstring;
  after : list log_line
}.

Definition mdcStep (r : LoadedRule) : WriteStep :=
  {| before := []; target := mdcPath r; after := [] |}.

Definition writeSteps (rules : list LoadedRule) : list WriteStep :=
  [ {| before := [Log_GeneratingCopilot]; target := COPILOT_FILE;
       after := [] |};
    {| before := [Log_GeneratingReplit]; target := REPLIT_FILE;
       after := [] |};
    {| before := [Log_GeneratingCursorMain]; target := CURSOR_MAIN_FILE;
       after := [Log_GeneratingCursorIndividual] |} ]
  ++ map mdcStep rules.

(** The console lines of the writes when the first [k] of them go through
    and the next one, if there is one, throws. *)
Fixpoint stepsLog (k : nat) (steps : list WriteStep) : list log_line :=
  match steps with
  | [] => []
  | st :: rest =>
      match k with
      | O => before st
      | S k' =>
          before st ++ [Log_Generated (target st)] ++ after st
          ++ stepsLog k' rest
      end
  end.

(** The console up to the first write. *)
Definition loadPhaseLog (table : list RuleTopic) (e : Env)
    (text : jsstring) : list log_line :=
  let metadata := metadataOf e text in
  [Log_Start; Log_Metadata (version metadata) (lastUpdated metadata);
   Log_ExtractedCore]
  ++ flat_map (loadLog (files e)) table
  ++ [Log_Loaded (length (loadedRules (files e) table))].

(** What a run on a readable, non-empty canonical document with both markers
    leaves behind: the files written before the first write that throws, exit
    code 0 when none throws and 1 otherwise. *)
Definition validRun (table : list RuleTopic) (e : Env)
    (text core : jsstring) : Run :=
  let attempts := renderAll table e text core in
  let rules := loadedRules (files e) table in
  let k := writtenCount table e text core in
  {| exit_code := match nth_error attempts k with
                  | None => 0
                  | Some _ => 1
                  end;
     outputs := firstn k attempts;
     log := loadPhaseLog table e text
            ++ stepsLog k (writeSteps rules)
            ++ match nth_error attempts k with
               | None => [Log_Completed (length rules)]
               | Some out => [Err_DuringSync (WriteFailed (fst out))]
               end |}.


(** A document with two topic indexes, one entry per listed rule. *)
Definition listedDocument (head : jsstring) (line1 : LoadedRule -> jsstring)
    (middle : jsstring) (line2 : LoadedRule -> jsstring) (closing : jsstring)
    (rules : list LoadedRule) : jsstring :=
  head ++ concat (map line1 rules) ++ middle ++ concat (map line2 rules)
  ++ closing.

(** The body that the specification describes for a .mdc file: the original
    text, or the original text without a first line that starts with "# ". *)
Definition headingLine (h : jsstring) : Prop :=
  startsWith (lit "# ") h = true /\ ~ In 10%N h.

Definition bodyAsSpecified (original body : jsstring) : Prop :=
  body = original \/
  exists h, headingLine h /\
            (original = h ++ nl ++ body \/ (original = h /\ body = [])).

(** The files of a successful run with the indexes spelled out: the two
    timestamps, the core block, the metadata and the rules listed, in order,
    in every index and as per-topic files. *)
Definition listedOutputs (stamp1 stamp2 core : jsstring) (md : Metadata)
    (rules : list LoadedRule) : list (jsstring * jsstring) :=
  [ (COPILOT_FILE,
     listedDocument
       (aggregateHead (lit "# GitHub Copilot Instructions") stamp1 core md)
       linkedEntry detailedRulesTail plainEntry closingSections rules);
    (REPLIT_FILE,
     listedDocument
       (aggregateHead (lit "# Replit AI Instructions") stamp2 core md)
       linkedEntry detailedRulesTail plainEntry closingSections rules);
    (CURSOR_MAIN_FILE,
     listedDocument (cursorHead core)
       cursorSeeEntry cursorMiddle cursorFromEntry cursorClosing rules) ]
  ++ map mdcOutput rules.

(** What stands before and behind the "Last Updated" field of the Copilot
    and Replit documents. *)
Definition stampPrefix (title v : jsstring) : jsstring :=
  title ++ nl ++ nl ++ generatedBanner ++ nl ++ nl
  ++ lit "**Rules Version:** " ++ v ++ lit "  " ++ nl.

Definition stampSuffix (core : jsstring) (rules : list LoadedRule) : jsstring :=
  nl ++ nl ++ core ++ nl ++ nl
  ++ lit "## Detailed Rules" ++ nl ++ nl
  ++ lit "For comprehensive guidelines, refer to the following rule files in `docs/rules/`:"
  ++ nl ++ nl
  ++ topicIndex linkedEntry rules ++ detailedRulesTail
  ++ topicIndex plainEntry rules ++ closingSections.

(** The file system [fs] with the file at [path] made unreadable. *)
Definition withoutFile (fs : jsstring -> option jsstring) (path : jsstring)
    : jsstring -> option jsstring :=
  fun q => if eqs q path then None else fs q.

(** Every console line but the error line of [readFile] for [path]. *)
Definition notReadErrorOf (path : jsstring) (l : log_line) : bool :=
  match l with
  | Err_ReadingFile q => negb (eqs q path)
  | _ => true
  end.

Definition present (e : Env) (t : RuleTopic) : bool :=
  truthy (files e (rulePath t)).

(** ** Sample inputs *)

(** A file system given by a listing of (path, text) pairs. *)
Fixpoint listing (entries : list (jsstring * jsstring)) (path : jsstring)
    : option jsstring :=
  match entries with
  | [] => None
  | (p, text) :: entries' =>
      if eqs p path then Some text else listing entries' path
  end.

Definition noon : DateTime :=
  {| year := 2024; month := 3; day := 9;
     hours := 12; minutes := 0; seconds := 5; millis := 42 |}.

Definition midnight : DateTime :=
  {| year := 2024; month := 3; day := 9;
     hours := 23; minutes := 59; seconds := 59; millis := 999 |}.

(** A document without any marker. *)
Definition plainDoc : jsstring := lit "# Rules".

(** The end marker stands before the start marker. *)
Definition reversedDoc : jsstring := SYNC_END ++ lit "x" ++ SYNC_START.

(** Nothing stands between the markers. *)
Definition emptyCoreDoc : jsstring := SYNC_START ++ SYNC_END.

(** A second start marker stands between the markers. *)
Definition doubleStartDoc : jsstring :=
  SYNC_START ++ SYNC_START ++ lit "x" ++ SYNC_END.

(** A placeholder region splits the text "<!-- SYNC_" from "START -->". *)
Definition splicedMarkerDoc : jsstring :=
  SYNC_START ++ lit "<!-- SYNC_" ++ INCLUDE_START ++ INCLUDE_END
  ++ lit "START -->" ++ SYNC_END.

(** A placeholder region splits the start token of another one. *)
Definition splicedRegionDoc : jsstring :=
  SYNC_START ++ lit "<!-- INCLUDE_RULES:ST" ++ INCLUDE_START ++ lit "x"
  ++ INCLUDE_END ++ lit "ART -->y" ++ INCLUDE_END ++ SYNC_END.

(** One placeholder region stands in the core text. *)
Definition regionDoc : jsstring :=
  lit "pre" ++ SYNC_START ++ nl ++ lit "# Core" ++ nl
  ++ INCLUDE_START ++ lit "zz" ++ INCLUDE_END ++ nl ++ lit "tail" ++ nl
  ++ SYNC_END.

Definition goodDoc : jsstring :=
  lit "intro" ++ nl ++ lit "<!-- VERSION: 2.0.0 -->" ++ nl
  ++ SYNC_START ++ nl ++ lit "core text" ++ nl ++ SYNC_END ++ nl ++ lit "tail".

Definition plainEnv : Env :=
  {| files := listing [(AI_INSTRUCTIONS_FILE, plainDoc)];
     clock := fun _ => noon;
     writable := fun _ _ => true |}.

(** A topic text that ends with a line feed. *)
Definition oneLineTopic : jsstring := lit "a" ++ nl.

Definition headedTopic : jsstring :=
  nl ++ lit "# Testing" ++ nl ++ nl ++ lit "# Second" ++ nl ++ lit "body" ++ nl.

Definition sampleMetadata : Metadata :=
  {| version := lit "9.9.9"; lastUpdated := lit "2031-12-24" |}.

Definition topicA : RuleTopic :=
  {| file := lit "a.md"; name := lit "Alpha"; key := lit "a" |}.
Definition topicB : RuleTopic :=
  {| file := lit "b.md"; name := lit "Beta"; key := lit "b" |}.
Definition topicC : RuleTopic :=
  {| file := lit "c.md"; name := lit "Gamma"; key := lit "c" |}.

Definition gammaText : jsstring := lit "# Gamma" ++ nl ++ lit "text" ++ nl.
Definition betaText : jsstring := lit "beta" ++ nl.

(** a.md is missing, b.md and c.md are readable and not empty. *)
Definition oneMissingEnv : Env :=
  {| files := listing [(AI_INSTRUCTIONS_FILE, goodDoc);
                       (rulePath topicB, betaText);
                       (rulePath topicC, gammaText)];
     clock := fun _ => noon;
     writable := fun _ _ => true |}.

(** a.md is missing, b.md is there and empty, c.md is readable. *)
Definition emptyTopicEnv : Env :=
  {| files := listing [(AI_INSTRUCTIONS_FILE, goodDoc);
                       (rulePath topicB, []);
                       (rulePath topicC, gammaText)];
     clock := fun _ => noon;
     writable := fun _ _ => true |}.

(** As [oneMissingEnv], but the Cursor main file cannot be written. *)
Definition cursorLockedEnv : Env :=
  {| files := files oneMissingEnv;
     clock := clock oneMissingEnv;
     writable := fun _ path => negb (eqs path CURSOR_MAIN_FILE) |}.

(** AI_INSTRUCTIONS.md is there and empty. *)
Definition emptyCanonicalEnv : Env :=
  {| files := listing [(AI_INSTRUCTIONS_FILE, []);
                       (rulePath topicC, gammaText)];
     clock := fun _ => noon;
     writable := fun _ _ => true |}.

(** ** Notions for the further properties *)

(** No occurrence of [p] can start inside another one: behind a non-empty
    [u] shorter than [p], the text [u ++ p ++ t] does not start with [p]. *)
Definition unbordered (p : jsstring) : Prop :=
  forall u t, 0 < length u < length p -> startsWith p (u ++ p ++ t) = false.

Definition absent (p s : jsstring) : bool :=
  match indexOf p s with
  | None => true
  | Some _ => false
  end.

(** A text made of kept fragments, each followed by one placeholder region
    with inner text, and a final fragment. *)
Fixpoint placeRegions (parts : list (jsstring * jsstring)) (final : jsstring)
    : jsstring :=
  match parts with
  | [] => final
  | (kept, inner) :: parts' =>
      kept ++ INCLUDE_START ++ inner ++ INCLUDE_END
      ++ placeRegions parts' final
  end.

Definition cleanPart (part : jsstring * jsstring) : bool :=
  absent INCLUDE_START (fst part) && absent INCLUDE_END (snd part).

Definition nonWhite (c : N) : bool := negb (isWhiteSpace c).
Definition notLineFeed (c : N) : bool := negb (N.eqb c 10).

(** The console lines about single topics. *)
Definition isRuleLine (l : log_line) : bool :=
  match l with
  | Log_ReadRule _ | Log_SkippedRule _ => true
  | _ => false
  end.

Definition ruleLine (e : Env) (t : RuleTopic) : log_line :=
  if present e t then Log_ReadRule (name t) else Log_SkippedRule (name t).

(** The strings of a list are pairwise different. *)
Fixpoint distinctb (l : list jsstring) : bool :=
  match l with
  | [] => true
  | x :: l' => negb (existsb (eqs x) l') && distinctb l'
  end.

(** Every path the script reads, for the table [RULE_FILES]. *)
Definition inputPaths : list jsstring :=
  AI_INSTRUCTIONS_FILE :: map rulePath RULE_FILES.

(** Every path the script can write, for the table [RULE_FILES]. *)
Definition outputPaths : list jsstring :=
  [COPILOT_FILE; REPLIT_FILE; CURSOR_MAIN_FILE]
  ++ map (fun t => path_join CURSOR_RULES_DIR (key t ++ lit ".mdc")) RULE_FILES.

(** A canonical document with both metadata markers and a placeholder. *)
Definition fullDoc : jsstring :=
  lit "# Rules" ++ nl
  ++ lit "<!-- VERSION: 2.1.0 -->" ++ nl
  ++ lit "<!-- LAST_UPDATED: 2025-01-31 -->" ++ nl
  ++ SYNC_START ++ nl ++ lit "Core A" ++ nl
  ++ INCLUDE_START ++ lit "list" ++ INCLUDE_END ++ nl
  ++ lit "Core B" ++ nl ++ SYNC_END ++ nl.

Definition fullEnv : Env :=
  {| files := listing [(AI_INSTRUCTIONS_FILE, fullDoc);
                       (rulePath topicB, betaText);
                       (rulePath topicC, gammaText)];
     clock := fun _ => noon;
     writable := fun _ _ => true |}.

(** As [fullEnv], with other texts in the topic files. *)
Definition editedEnv : Env :=
  {| files := listing [(AI_INSTRUCTIONS_FILE, fullDoc);
                       (rulePath topicB, lit "rewritten");
                       (rulePath topicC, lit "# New" ++ nl ++ lit "body")];
     clock := fun _ => noon;
     writable := fun _ _ => true |}.

(** An unterminated placeholder in the core text. *)
Definition openPlaceholder : jsstring :=
  lit "Core" ++ nl ++ INCLUDE_START ++ lit "never closed".

(** * Properties *)

(** ** Strings *)

Section StringFacts.

Lemma startsWith_app (p t : jsstring) : startsWith p (p ++ t) = true.
Proof.
  induction p as [|x p IH]; simpl; [reflexivity|].
  now rewrite N.eqb_refl, IH.
Qed.

Lemma startsWith_inv (p s : jsstring) :
  startsWith p s = true -> s = p ++ skipn (length p) s.
Proof.
  revert s; induction p as [|x p IH]; intros s H; simpl in *; [reflexivity|].
  destruct s as [|y s]; [discriminate|].
  apply andb_true_iff in H as [Hxy Hp].
  apply N.eqb_eq in Hxy; subst y.
  simpl. f_equal. now apply IH.
Qed.

Lemma startsWith_iff (p s : jsstring) :
  startsWith p s = true <-> exists t, s = p ++ t.
Proof.
  split.
  - intros H; eexists; now apply startsWith_inv.
  - intros [t ->]; apply startsWith_app.
Qed.

(** [indexOf] returns a position where the pattern stands. *)
Lemma indexOf_Some_split (p s : jsstring) (i : nat) :
  indexOf p s = Some i ->
  s = firstn i s ++ p ++ skipn (i + length p) s.
Proof.
  revert i; induction s as [|c s IH]; intros i H; simpl in H.
  - destruct (startsWith p []) eqn:E; [|discriminate].
    injection H as <-. now apply startsWith_inv in E.
  - destruct (startsWith p (c :: s)) eqn:E.
    + injection H as <-. now apply startsWith_inv in E.
    + destruct (indexOf p s) as [k|] eqn:Ek; [|discriminate].
      injection H as <-. simpl. f_equal. now apply IH.
Qed.

(** ... and it is the leftmost one. *)
Lemma indexOf_Some_least (p s a b : jsstring) (i : nat) :
  indexOf p s = Some i -> s = a ++ p ++ b -> i <= length a.
Proof.
  revert i a; induction s as [|c s IH]; intros i a H Hs; simpl in H.
  - destruct (startsWith p []); [injection H as <-; lia | discriminate].
  - destruct (startsWith p (c :: s)) eqn:E; [injection H as <-; lia|].
    destruct (indexOf p s) as [k|] eqn:Ek; [|discriminate].
    injection H as <-.
    destruct a as [|x a].
    + simpl in Hs. rewrite Hs, startsWith_app in E. discriminate.
    + simpl in Hs. injection Hs as _ Hs. simpl.
      apply le_n_S. now apply (IH k a).
Qed.

Lemma indexOf_None_iff (p s : jsstring) :
  indexOf p s = None <-> ~ contains p s.
Proof.
  split.
  - induction s as [|c s IH]; intros H [a [b Hs]]; simpl in H.
    + destruct (startsWith p []) eqn:E; [discriminate|].
      destruct a; [|discriminate]. simpl in Hs.
      rewrite Hs, startsWith_app in E. discriminate.
    + destruct (startsWith p (c :: s)) eqn:E; [discriminate|].
      destruct (indexOf p s) eqn:Ek; [discriminate|].
      destruct a as [|x a]; simpl in Hs.
      * rewrite Hs, startsWith_app in E. discriminate.
      * injection Hs as _ Hs. apply IH; [reflexivity|]. now exists a, b.
  - intros H. destruct (indexOf p s) as [i|] eqn:E; [|reflexivity].
    exfalso; apply H. apply indexOf_Some_split in E.
    now exists (firstn i s), (skipn (i + length p) s).
Qed.

Lemma startsWith_length (p s : jsstring) :
  startsWith p s = true -> length p <= length s.
Proof.
  intros H. apply startsWith_inv in H. rewrite H, length_app. lia.
Qed.

Lemma indexOf_Some_lt (p s : jsstring) (i : nat) :
  indexOf p s = Some i -> i + length p <= length s.
Proof.
  revert i; induction s as [|c s IH]; intros i H; simpl in H.
  - destruct (startsWith p []) eqn:E; [|discriminate].
    injection H as <-. now apply startsWith_length in E.
  - destruct (startsWith p (c :: s)) eqn:E.
    + injection H as <-. now apply startsWith_length in E.
    + destruct (indexOf p s) as [k|] eqn:Ek; [|discriminate].
      injection H as <-. specialize (IH k eq_refl). simpl. lia.
Qed.

(** No occurrence of the pattern lies wholly before the position found. *)
Lemma indexOf_Some_prefix_free (p s : jsstring) (i : nat) :
  p <> [] -> indexOf p s = Some i -> ~ contains p (firstn i s).
Proof.
  intros Hp H [a [b Hab]].
  pose proof (firstn_skipn i s) as Hs.
  rewrite Hab in Hs. rewrite <- !app_assoc in Hs. symmetry in Hs.
  pose proof (indexOf_Some_least _ _ _ H Hs) as Hle.
  assert (Hlen : length (firstn i s) <= i) by apply firstn_le_length.
  rewrite Hab, !length_app in Hlen.
  destruct p; [congruence|]. simpl in Hlen. lia.
Qed.

Lemma contains_app_l (p s a : jsstring) : contains p s -> contains p (a ++ s).
Proof.
  intros [x [y ->]]. exists (a ++ x), y. now rewrite <- app_assoc.
Qed.

Lemma contains_app_r (p s b : jsstring) : contains p s -> contains p (s ++ b).
Proof.
  intros [x [y ->]]. exists x, (y ++ b). now rewrite <- !app_assoc.
Qed.

Lemma contains_firstn (p s : jsstring) (n : nat) :
  contains p (firstn n s) -> contains p s.
Proof.
  intros H. rewrite <- (firstn_skipn n s). now apply contains_app_r.
Qed.

Lemma contains_skipn (p s : jsstring) (n : nat) :
  contains p (skipn n s) -> contains p s.
Proof.
  intros H. rewrite <- (firstn_skipn n s). now apply contains_app_l.
Qed.

(** [trim] cuts a block out of its argument ... *)
Lemma dropWhile_suffix (f : N -> bool) (s : jsstring) :
  exists a, s = a ++ dropWhile f s.
Proof.
  induction s as [|c s [a IH]]; simpl.
  - now exists [].
  - destruct (f c).
    + exists (c :: a). simpl. now f_equal.
    + now exists [].
Qed.

Lemma trim_block (s : jsstring) : exists a b, s = a ++ trim s ++ b.
Proof.
  unfold trim, trimEnd, trimStart.
  destruct (dropWhile_suffix isWhiteSpace s) as [a Ha].
  destruct (dropWhile_suffix isWhiteSpace (rev (dropWhile isWhiteSpace s)))
    as [b Hb].
  exists a, (rev b).
  rewrite <- rev_app_distr, <- Hb, rev_involutive. exact Ha.
Qed.

Lemma contains_trim (p s : jsstring) : contains p (trim s) -> contains p s.
Proof.
  intros H. destruct (trim_block s) as [a [b Hs]]. rewrite Hs.
  now apply contains_app_l, contains_app_r.
Qed.

End StringFacts.

Section MoreStringFacts.

Lemma indexOf_Some_at (p s : jsstring) (i : nat) :
  indexOf p s = Some i -> startsWith p (skipn i s) = true.
Proof.
  revert i; induction s as [|c s IH]; intros i H; simpl in H.
  - destruct (startsWith p []) eqn:E; [|discriminate].
    now injection H as <-.
  - destruct (startsWith p (c :: s)) eqn:E; [now injection H as <-|].
    destruct (indexOf p s) as [k|] eqn:Ek; [|discriminate].
    injection H as <-. simpl. now apply IH.
Qed.

Lemma indexOf_Some_skipn (p s : jsstring) (i : nat) :
  indexOf p s = Some i -> skipn i s = p ++ skipn (i + length p) s.
Proof.
  intros H. apply indexOf_Some_at, startsWith_inv in H.
  rewrite skipn_skipn in H. now rewrite (Nat.add_comm i).
Qed.

Lemma indexOf_Some_firstn (p s : jsstring) (i : nat) :
  indexOf p s = Some i -> firstn (i + length p) s = firstn i s ++ p.
Proof.
  intros H. pose proof (indexOf_Some_lt _ _ H) as Hlen.
  pose proof (indexOf_Some_skipn _ _ H) as Hs.
  rewrite <- (firstn_skipn i s) at 1.
  rewrite firstn_app, length_firstn, Nat.min_l by lia.
  rewrite firstn_firstn, Nat.min_r by lia.
  replace (i + length p - i) with (length p) by lia.
  rewrite Hs. f_equal.
  rewrite firstn_app, Nat.sub_diag, firstn_all. simpl. apply app_nil_r.
Qed.

Lemma substring_le (a b : nat) (s : jsstring) :
  a <= b -> b <= length s -> substring a b s = firstn (b - a) (skipn a s).
Proof.
  intros Hab Hb. unfold substring.
  now rewrite (Nat.min_l a), (Nat.min_l b), Nat.min_l, Nat.max_r by lia.
Qed.

Lemma substring_ge (a b : nat) (s : jsstring) :
  b <= a -> a <= length s -> substring a b s = firstn (a - b) (skipn b s).
Proof.
  intros Hab Hb. unfold substring.
  now rewrite (Nat.min_l a), (Nat.min_l b), Nat.min_r, Nat.max_l by lia.
Qed.

Lemma dropWhile_length (f : N -> bool) (s : jsstring) :
  length (dropWhile f s) <= length s.
Proof.
  induction s as [|c s IH]; simpl; [lia|].
  destruct (f c); simpl; lia.
Qed.

Lemma dropWhile_idem (f : N -> bool) (s : jsstring) :
  dropWhile f (dropWhile f s) = dropWhile f s.
Proof.
  induction s as [|c s IH]; simpl; [reflexivity|].
  destruct (f c) eqn:E; [exact IH|]. simpl. now rewrite E.
Qed.

Lemma dropWhile_fixed_prefix (f : N -> bool) (y z r : jsstring) :
  dropWhile f y = y -> y = z ++ r -> dropWhile f z = z.
Proof.
  intros Hy ->. destruct z as [|c z]; [reflexivity|].
  simpl in *. destruct (f c); [|reflexivity].
  pose proof (dropWhile_length f (z ++ r)) as Hl.
  rewrite Hy in Hl. simpl in Hl. lia.
Qed.

Lemma trim_idem (s : jsstring) : trim (trim s) = trim s.
Proof.
  unfold trim, trimEnd, trimStart.
  set (y := dropWhile isWhiteSpace s).
  set (z := rev (dropWhile isWhiteSpace (rev y))).
  assert (Hz : dropWhile isWhiteSpace z = z).
  { destruct (dropWhile_suffix isWhiteSpace (rev y)) as [a Ha].
    apply dropWhile_fixed_prefix with (y := y) (r := rev a).
    - apply dropWhile_idem.
    - unfold z. rewrite <- rev_app_distr, <- Ha. now rewrite rev_involutive. }
  rewrite Hz. unfold z. now rewrite rev_involutive, dropWhile_idem.
Qed.

Lemma removeInclude_none (s : jsstring) :
  indexOf INCLUDE_START s = None -> removeInclude s = s.
Proof.
  intros H. unfold removeInclude.
  destruct (length s); simpl; [reflexivity|]. now rewrite H.
Qed.

(** More fuel than the length of the text changes nothing. *)
Lemma removeInclude_go_enough (fuel : nat) (s : jsstring) :
  length s <= fuel -> removeInclude_go fuel s = removeInclude s.
Proof.
  unfold removeInclude.
  remember (length s) as n eqn:Hn.
  revert s fuel Hn.
  induction n as [n IH] using lt_wf_ind; intros s fuel Hn Hle.
  destruct fuel as [|fuel].
  - assert (n = 0) by lia. subst n. now rewrite H.
  - destruct n as [|n].
    + simpl. destruct s; [|discriminate]. reflexivity.
    + simpl.
      destruct (indexOf INCLUDE_START s) as [p|] eqn:Ep; [|reflexivity].
      destruct (indexOf INCLUDE_END (skipn (p + 28) s))
        as [q|] eqn:Eq; [|reflexivity].
      f_equal.
      set (r := skipn (q + 26) (skipn (p + 28) s)).
      assert (Hr : length r < S n).
      { unfold r. rewrite !length_skipn. lia. }
      rewrite (IH (length r) Hr r fuel eq_refl) by lia.
      now rewrite (IH (length r) Hr r n eq_refl) by lia.
Qed.

(** The two sync markers cannot overlap. *)
Lemma markers_disjoint (t : jsstring) (k : nat) :
  0 < k < 19 -> startsWith SYNC_END (skipn k (SYNC_START ++ t)) = false.
Proof.
  intros Hk.
  let v := eval vm_compute in SYNC_START in change SYNC_START with v.
  let v := eval vm_compute in SYNC_END in change SYNC_END with v.
  do 19 (destruct k as [|k]; [try lia; reflexivity|]). lia.
Qed.

Lemma markers_in_order (doc : jsstring) (i j : nat) :
  indexOf SYNC_START doc = Some i -> indexOf SYNC_END doc = Some j ->
  i < j -> i + length SYNC_START <= j.
Proof.
  intros Hi Hj Hlt.
  change (length SYNC_START) with 19.
  destruct (Nat.le_gt_cases (i + 19) j) as [H|H]; [exact H|exfalso].
  apply indexOf_Some_at in Hj.
  apply indexOf_Some_at, startsWith_inv in Hi.
  replace j with ((j - i) + i) in Hj by lia.
  rewrite <- skipn_skipn, Hi, markers_disjoint in Hj by lia.
  discriminate.
Qed.

Lemma skipn_length_app (a r : jsstring) (n : nat) :
  skipn (length a + n) (a ++ r) = skipn n r.
Proof.
  rewrite skipn_app, skipn_all2 by lia.
  now replace (length a + n - length a) with n by lia.
Qed.

(** One round of the removal: the leftmost region goes, the scan goes on
    behind it. *)
Lemma removeInclude_region (a b c : jsstring) :
  indexOf INCLUDE_START (a ++ INCLUDE_START ++ b ++ INCLUDE_END ++ c)
    = Some (length a) ->
  indexOf INCLUDE_END (b ++ INCLUDE_END ++ c) = Some (length b) ->
  removeInclude (a ++ INCLUDE_START ++ b ++ INCLUDE_END ++ c) =
  a ++ removeInclude c.
Proof.
  intros Ha Hb.
  set (x := a ++ INCLUDE_START ++ b ++ INCLUDE_END ++ c) in *.
  assert (Hrest : skipn (length a + length INCLUDE_START) x
                  = b ++ INCLUDE_END ++ c).
  { unfold x. rewrite skipn_length_app.
    rewrite <- (Nat.add_0_r (length INCLUDE_START)).
    now rewrite skipn_length_app. }
  assert (Hc : skipn (length b + length INCLUDE_END) (b ++ INCLUDE_END ++ c) = c).
  { rewrite skipn_length_app.
    rewrite <- (Nat.add_0_r (length INCLUDE_END)).
    now rewrite skipn_length_app. }
  assert (Hfirst : firstn (length a) x = a).
  { unfold x. rewrite firstn_app, Nat.sub_diag, firstn_all. cbn [firstn].
    apply app_nil_r. }
  assert (Hlen : length x = S (length a + length b + length c + 53)).
  { unfold x. rewrite !length_app.
    change (length INCLUDE_START) with 28.
    change (length INCLUDE_END) with 26. lia. }
  unfold removeInclude at 1. rewrite Hlen. cbn [removeInclude_go].
  rewrite Ha, Hrest, Hb, Hc, Hfirst. f_equal.
  apply removeInclude_go_enough. lia.
Qed.

End MoreStringFacts.

(** ** The pipeline *)

Section Pipeline.

Lemma appendEntries_index (line : LoadedRule -> jsstring)
    (rules : list LoadedRule) (c0 : jsstring) :
  appendEntries line rules c0 = c0 ++ topicIndex line rules.
Proof.
  unfold appendEntries, topicIndex.
  revert c0; induction rules as [|r rules IH]; intros c0; simpl.
  - now rewrite app_nil_r.
  - rewrite IH. destruct (hasContent r); simpl; [|reflexivity].
    now rewrite <- app_assoc.
Qed.

Lemma loadRules_spec (table : list RuleTopic) :
  forall (rules : list LoadedRule) (e : Env) (s : State),
    loadRules table rules e s =
    (Returned (rules ++ loadedRules (files e) table),
     {| ticks := ticks s; written := written s;
        console := console s ++ flat_map (loadLog (files e)) table |}).
Proof.
  induction table as [|t table IH]; intros rules e s.
  - simpl. unfold ret. rewrite !app_nil_r. now destruct s.
  - cbn [loadRules flat_map loadedRules].
    unfold bind at 1, readFile, loadLog, rulePath.
    destruct (files e (path_join RULES_DIR (file t))) as [[|c text]|];
      cbn [truthy]; unfold bind, console_log; rewrite IH;
      cbn [ticks written console app]; rewrite <- ?app_assoc; reflexivity.
Qed.

Lemma extractMetadata_spec (text : jsstring) (e : Env) (s : State) :
  ticks s = 0 ->
  extractMetadata text e s =
  (Returned (metadataOf e text),
   {| ticks := metadataTicks text; written := written s;
      console := console s |}).
Proof.
  intros Ht. unfold extractMetadata, metadataOf, metadataTicks, bind, ret, newDate.
  destruct (lastUpdatedMatch text); rewrite ?Ht; destruct s; simpl in *;
    subst; reflexivity.
Qed.

Lemma bind_returned {A B} (m : M A) (k : A -> M B) (e : Env) (s s' : State)
    (a : A) :
  m e s = (Returned a, s') -> bind m k e s = k a e s'.
Proof. intros H. unfold bind. now rewrite H. Qed.

Lemma bind_threw {A B} (m : M A) (k : A -> M B) (e : Env) (s s' : State)
    (err : error) :
  m e s = (Threw err, s') -> bind m k e s = (Threw err, s').
Proof. intros H. unfold bind. now rewrite H. Qed.

Lemma bind_exited {A B} (m : M A) (k : A -> M B) (e : Env) (s s' : State)
    (code : N) :
  m e s = (Exited code, s') -> bind m k e s = (Exited code, s').
Proof. intros H. unfold bind. now rewrite H. Qed.

Lemma generateCopilotInstructions_run (core : jsstring)
    (rules : list LoadedRule) (md : Metadata) (e : Env) (s : State) :
  generateCopilotInstructions core rules md e s =
  (Returned (copilotDocument (toISOString (clock e (ticks s))) core rules md),
   {| ticks := S (ticks s); written := written s; console := console s |}).
Proof. reflexivity. Qed.

Lemma generateReplitInstructions_run (core : jsstring)
    (rules : list LoadedRule) (md : Metadata) (e : Env) (s : State) :
  generateReplitInstructions core rules md e s =
  (Returned (replitDocument (toISOString (clock e (ticks s))) core rules md),
   {| ticks := S (ticks s); written := written s; console := console s |}).
Proof. reflexivity. Qed.

(** One step of a run: the first action returns. *)
Ltac step_by tac :=
  erewrite bind_returned by tac;
  cbv beta iota zeta; cbn [ticks written console].

Ltac step := step_by reflexivity.

Lemma writeFile_ok (filePath text : jsstring) (e : Env) (s : State) :
  writable e (map fst (written s)) filePath = true ->
  writeFile filePath text e s =
  (Returned tt,
   {| ticks := ticks s;
      written := written s ++ [(filePath, text)];
      console := console s ++ [Log_Generated filePath] |}).
Proof. intros H. unfold writeFile. now rewrite H. Qed.

Lemma writeFile_fails (filePath text : jsstring) (e : Env) (s : State) :
  writable e (map fst (written s)) filePath = false ->
  writeFile filePath text e s = (Threw (WriteFailed filePath), s).
Proof. intros H. unfold writeFile. now rewrite H. Qed.

(** The loop over the per-topic files stops at the first write that
    throws. *)
Lemma writeMdcFiles_spec (rules : list LoadedRule) :
  forall (e : Env) (s : State),
    writeMdcFiles rules e s =
    let k := successes (writable e) (map fst (written s))
               (map fst (map mdcOutput rules)) in
    (match nth_error (map mdcOutput rules) k with
     | None => Returned tt
     | Some out => Threw (WriteFailed (fst out))
     end,
     {| ticks := ticks s;
        written := written s ++ firstn k (map mdcOutput rules);
        console := console s ++ stepsLog k (map mdcStep rules) |}).
Proof.
  induction rules as [|r rules IH]; intros e s.
  - cbn. unfold ret. rewrite !app_nil_r. now destruct s.
  - cbn [writeMdcFiles map fst successes].
    change (fst (mdcOutput r)) with (mdcPath r).
    destruct (writable e (map fst (written s)) (mdcPath r)) eqn:Hw.
    + erewrite bind_returned by (apply writeFile_ok; exact Hw). rewrite IH.
      cbn [ticks written console]. rewrite map_app. cbn [map fst].
      cbn zeta. cbn [nth_error firstn stepsLog mdcStep before after target app].
      rewrite <- !app_assoc. reflexivity.
    + erewrite bind_threw by (apply writeFile_fails; exact Hw).
      cbn zeta. cbn [nth_error firstn stepsLog mdcStep before fst mdcOutput].
      rewrite !app_nil_r. now destruct s.
Qed.

Lemma successes_le (ok : list jsstring -> jsstring -> bool)
    (done targets : list jsstring) :
  successes ok done targets <= length targets.
Proof.
  revert done; induction targets as [|p rest IH]; intros done; [reflexivity|].
  cbn [successes length]. destruct (ok done p); [|lia].
  specialize (IH (done ++ [p])). lia.
Qed.


(** A readable, non-empty canonical document with both markers: the run
    leaves [validRun] behind. *)
Lemma main_valid (table : list RuleTopic) (e : Env) (c : N)
    (text' core : jsstring) :
  files e AI_INSTRUCTIONS_FILE = Some (c :: text') ->
  extractCoreStandards (c :: text') = inr core ->
  main table e = validRun table e (c :: text') core.
Proof.
  intros Hf Hc. unfold main, syncRules.
  step.
  step_by ltac:(unfold readFile; rewrite Hf; reflexivity).
  rewrite Hc.
  step_by ltac:(apply extractMetadata_spec; reflexivity).
  step. step. step.
  step_by ltac:(apply loadRules_spec).
  step. step.
  step_by ltac:(apply generateCopilotInstructions_run).
  unfold validRun, writtenCount, renderAll, writeSteps, loadPhaseLog.
  cbn [app map fst successes].
  set (text := c :: text').
  set (rules := loadedRules (files e) table).
  set (md := metadataOf e text).
  destruct (writable e [] COPILOT_FILE) eqn:Hw1.
  2:{ erewrite bind_threw by (apply writeFile_fails; exact Hw1).
      cbn [nth_error firstn stepsLog before written console initial app fst].
      rewrite <- !app_assoc. reflexivity. }
  step_by ltac:(apply writeFile_ok; exact Hw1).
  step.
  step_by ltac:(apply generateReplitInstructions_run).
  destruct (writable e [COPILOT_FILE] REPLIT_FILE) eqn:Hw2.
  2:{ erewrite bind_threw by (apply writeFile_fails; exact Hw2).
      cbn [nth_error firstn stepsLog before after target written console
           initial app fst].
      rewrite <- !app_assoc. reflexivity. }
  step_by ltac:(apply writeFile_ok; exact Hw2).
  step.
  fold CURSOR_MAIN_FILE.
  destruct (writable e [COPILOT_FILE; REPLIT_FILE] CURSOR_MAIN_FILE) eqn:Hw3.
  2:{ erewrite bind_threw by (apply writeFile_fails; exact Hw3).
      cbn [nth_error firstn stepsLog before after target written console
           initial app fst].
      rewrite <- !app_assoc. reflexivity. }
  step_by ltac:(apply writeFile_ok; exact Hw3).
  step.
  unfold bind at 1. rewrite writeMdcFiles_spec.
  cbn zeta. cbn [ticks written console initial app map fst].
  set (k := successes (writable e) [COPILOT_FILE; REPLIT_FILE; CURSOR_MAIN_FILE]
              (map fst (map mdcOutput rules))).
  cbn [nth_error firstn stepsLog before after target app].
  destruct (nth_error (map mdcOutput rules) k) as [out|];
    unfold console_log; cbn [ticks written console];
    cbn [app]; rewrite <- !app_assoc; cbn [app]; reflexivity.
Qed.

Lemma validRun_exit_code (table : list RuleTopic) (e : Env)
    (text core : jsstring) :
  exit_code (validRun table e text core) = 0%N <->
  writtenCount table e text core = length (renderAll table e text core).
Proof.
  unfold validRun. cbn [exit_code].
  pose proof (successes_le (writable e) []
                (map fst (renderAll table e text core))) as Hle.
  rewrite length_map in Hle. fold (writtenCount table e text core) in Hle.
  destruct (nth_error (renderAll table e text core)
              (writtenCount table e text core)) eqn:E.
  - split; [discriminate|]. intros H.
    assert (Hn : nth_error (renderAll table e text core)
                   (writtenCount table e text core) <> None) by congruence.
    apply nth_error_Some in Hn. lia.
  - split; [|reflexivity]. intros _. apply nth_error_None in E. lia.
Qed.

Lemma stepsLog_all (rules : list LoadedRule) :
  stepsLog (3 + length rules) (writeSteps rules) =
  [Log_GeneratingCopilot; Log_Generated COPILOT_FILE;
   Log_GeneratingReplit; Log_Generated REPLIT_FILE;
   Log_GeneratingCursorMain; Log_Generated CURSOR_MAIN_FILE;
   Log_GeneratingCursorIndividual]
  ++ map (fun r => Log_Generated (mdcPath r)) rules.
Proof.
  unfold writeSteps.
  cbn [plus app stepsLog before after target]. do 7 f_equal.
  induction rules as [|r rules IH]; [reflexivity|].
  cbn [length map stepsLog before after target app]. now rewrite IH.
Qed.

(** A run on a valid canonical document that ends with exit code 0 wrote
    all of [renderAll]. *)
Lemma main_success (table : list RuleTopic) (e : Env) (c : N)
    (text' core : jsstring) :
  files e AI_INSTRUCTIONS_FILE = Some (c :: text') ->
  extractCoreStandards (c :: text') = inr core ->
  exit_code (main table e) = 0%N ->
  main table e =
  {| exit_code := 0;
     outputs := renderAll table e (c :: text') core;
     log := successLog table e (c :: text') |}.
Proof.
  intros Hf Hc. rewrite (@main_valid table e c text' core Hf Hc). intros H0.
  pose proof (proj1 (validRun_exit_code table e (c :: text') core) H0) as Hk.
  unfold validRun in *. cbn [exit_code] in H0.
  rewrite Hk in *.
  destruct (nth_error (renderAll table e (c :: text') core)
              (length (renderAll table e (c :: text') core)));
    [discriminate|].
  rewrite firstn_all. f_equal.
  unfold loadPhaseLog, successLog.
  replace (length (renderAll table e (c :: text') core))
    with (3 + length (loadedRules (files e) table))
    by (unfold renderAll; rewrite length_app, length_map; reflexivity).
  rewrite stepsLog_all. rewrite <- !app_assoc. reflexivity.
Qed.


(** A readable, non-empty canonical document without one of the markers:
    the exception of [extractCoreStandards] reaches the [catch]. *)
Lemma main_malformed (table : list RuleTopic) (e : Env) (c : N)
    (text' : jsstring) (err : error) :
  files e AI_INSTRUCTIONS_FILE = Some (c :: text') ->
  extractCoreStandards (c :: text') = inl err ->
  main table e =
  {| exit_code := 1;
     outputs := [];
     log := [Log_Start;
             Log_Metadata (version (metadataOf e (c :: text')))
               (lastUpdated (metadataOf e (c :: text')));
             Err_DuringSync err] |}.
Proof.
  intros Hf Hc. unfold main, syncRules.
  step.
  step_by ltac:(unfold readFile; rewrite Hf; reflexivity).
  rewrite Hc.
  step_by ltac:(apply extractMetadata_spec; reflexivity).
  step.
  erewrite bind_threw by reflexivity.
  reflexivity.
Qed.

(** An unreadable or empty canonical document: [process.exit(1)]. *)
Lemma main_unreadable (table : list RuleTopic) (e : Env) :
  truthy (files e AI_INSTRUCTIONS_FILE) = false ->
  main table e =
  {| exit_code := 1;
     outputs := [];
     log := Log_Start ::
            match files e AI_INSTRUCTIONS_FILE with
            | None => [Err_ReadingFile AI_INSTRUCTIONS_FILE]
            | Some _ => []
            end ++ [Err_FailedToReadAiInstructions] |}.
Proof.
  intros Hf. unfold main, syncRules.
  step.
  destruct (files e AI_INSTRUCTIONS_FILE) as [[|c text']|] eqn:E;
    try discriminate.
  - step_by ltac:(unfold readFile; rewrite E; reflexivity).
    erewrite bind_returned by reflexivity. reflexivity.
  - step_by ltac:(unfold readFile; rewrite E; reflexivity).
    erewrite bind_returned by reflexivity. reflexivity.
Qed.

End Pipeline.

(** ** Extraction of the core standards *)

Section Extraction.

Lemma extract_fails_iff (doc : jsstring) :
  extractCoreStandards doc = inl MarkersNotFound <->
  (indexOf SYNC_START doc = None \/ indexOf SYNC_END doc = None).
Proof.
  unfold extractCoreStandards.
  destruct (indexOf SYNC_START doc), (indexOf SYNC_END doc); split;
    intros H; try discriminate; try reflexivity; auto;
    destruct H; discriminate.
Qed.

(** Files are written only behind a successful extraction. *)
Lemma outputs_need_extraction (table : list RuleTopic) (e : Env) :
  outputs (main table e) <> [] ->
  exists doc core,
    files e AI_INSTRUCTIONS_FILE = Some doc /\
    extractCoreStandards doc = inr core.
Proof.
  intros H.
  destruct (files e AI_INSTRUCTIONS_FILE) as [[|c text]|] eqn:Hf.
  - rewrite main_unreadable in H by now rewrite Hf. now contradiction H.
  - destruct (extractCoreStandards (c :: text)) as [err|core] eqn:Hc.
    + rewrite (main_malformed table e Hf Hc) in H. now contradiction H.
    + now exists (c :: text), core.
  - rewrite main_unreadable in H by now rewrite Hf. now contradiction H.
Qed.

(** C1: a canonical document without the SYNC_START marker or without the
    SYNC_END marker makes [extractCoreStandards] throw its error, and a run on
    such a document writes no file and exits with code 1; in any run, files
    are written only if the extraction succeeded. *)
Theorem C1_missing_marker_is_fatal (doc : jsstring) :
  indexOf SYNC_START doc = None \/ indexOf SYNC_END doc = None ->
  extractCoreStandards doc = inl MarkersNotFound /\
  (forall table e,
      files e AI_INSTRUCTIONS_FILE = Some doc ->
      outputs (main table e) = [] /\ exit_code (main table e) = 1%N) /\
  (forall table e,
      outputs (main table e) <> [] ->
      exists d core,
        files e AI_INSTRUCTIONS_FILE = Some d /\
        extractCoreStandards d = inr core).
Proof.
  intros H. apply extract_fails_iff in H.
  split; [exact H|]. split; [|apply outputs_need_extraction].
  intros table e Hf. destruct doc as [|c text].
  - rewrite main_unreadable by now rewrite Hf. now split.
  - rewrite (main_malformed table e Hf H). now split.
Qed.

(** The theorem at [plainDoc], which has no marker at all. *)
Lemma C1_witness :
  extractCoreStandards plainDoc = inl MarkersNotFound /\
  outputs (main RULE_FILES plainEnv) = [] /\
  exit_code (main RULE_FILES plainEnv) = 1%N.
Proof.
  destruct (C1_missing_marker_is_fatal plainDoc) as [H1 [H2 _]].
  - left. reflexivity.
  - split; [exact H1|]. apply (H2 RULE_FILES plainEnv). reflexivity.
Defined.

(** C2: the code does not do what the claim, and its own description
    "between SYNC_START and SYNC_END", say.  In [reversedDoc] both markers
    occur, the end marker first.  [extractCoreStandards] does not throw there:
    [substring] receives a start behind its end and swaps the two, and the
    text returned is the whole document, both marker tokens included. *)
Lemma C2_reversed_markers_not_rejected :
  indexOf SYNC_START reversedDoc = Some 18 /\
  indexOf SYNC_END reversedDoc = Some 0 /\
  extractCoreStandards reversedDoc = inr reversedDoc /\
  extractCoreStandards reversedDoc <> inl MarkersNotFound /\
  indexOf SYNC_START reversedDoc <> None /\
  indexOf SYNC_END reversedDoc <> None.
Proof.
  repeat split; try (vm_compute; reflexivity); vm_compute; discriminate.
Qed.

(** C3 as stated fails: the result is empty for [emptyCoreDoc], contains the
    start marker for [doubleStartDoc], and a removed placeholder region leaves
    a start marker behind in [splicedMarkerDoc] and a whole placeholder region
    in [splicedRegionDoc]. *)
Lemma C3_counterexample :
  (indexOf SYNC_START emptyCoreDoc = Some 0 /\
   indexOf SYNC_END emptyCoreDoc = Some 19 /\
   extractCoreStandards emptyCoreDoc = inr []) /\
  (indexOf SYNC_START doubleStartDoc = Some 0 /\
   indexOf SYNC_END doubleStartDoc = Some 39 /\
   extractCoreStandards doubleStartDoc = inr (SYNC_START ++ lit "x")) /\
  (indexOf SYNC_START splicedMarkerDoc = Some 0 /\
   indexOf SYNC_END splicedMarkerDoc = Some 92 /\
   extractCoreStandards splicedMarkerDoc = inr SYNC_START) /\
  (indexOf SYNC_START splicedRegionDoc = Some 0 /\
   indexOf SYNC_END splicedRegionDoc = Some 129 /\
   extractCoreStandards splicedRegionDoc =
   inr (INCLUDE_START ++ lit "y" ++ INCLUDE_END)).
Proof.
  repeat split; vm_compute; reflexivity.
Qed.

(** C3, amended: when the first start marker stands before the first end
    marker, the document is [pre ++ SYNC_START ++ mid ++ SYNC_END ++ post] and
    [extractCoreStandards] returns [mid], trimmed, without the placeholder
    regions found in one pass, trimmed again: a value that depends on [mid]
    alone and may be empty.  The trimmed [mid] contains no end marker.  When
    [mid] contains neither a start marker nor a placeholder start token, the
    result is the trimmed [mid] and contains neither marker and no placeholder
    start token.  When the trimmed [mid] is [a], one placeholder region and
    [c], with no placeholder start token in [a] or [c], the result is the
    trimmed [a ++ c]. *)
Theorem C3_core_between_markers (doc : jsstring) (i j : nat) :
  indexOf SYNC_START doc = Some i -> indexOf SYNC_END doc = Some j ->
  i < j ->
  let mid := firstn (j - (i + length SYNC_START))
               (skipn (i + length SYNC_START) doc) in
  doc = firstn i doc ++ SYNC_START ++ mid ++ SYNC_END
        ++ skipn (j + length SYNC_END) doc /\
  extractCoreStandards doc = inr (trim (removeInclude (trim mid))) /\
  ~ contains SYNC_END (trim mid) /\
  (indexOf SYNC_START mid = None -> indexOf INCLUDE_START mid = None ->
   extractCoreStandards doc = inr (trim mid) /\
   ~ contains SYNC_START (trim mid) /\
   ~ contains INCLUDE_START (trim mid)) /\
  (forall a b c,
      trim mid = a ++ INCLUDE_START ++ b ++ INCLUDE_END ++ c ->
      indexOf INCLUDE_START (trim mid) = Some (length a) ->
      indexOf INCLUDE_END (b ++ INCLUDE_END ++ c) = Some (length b) ->
      indexOf INCLUDE_START c = None ->
      extractCoreStandards doc = inr (trim (a ++ c))).
Proof.
  intros Hi Hj Hlt mid.
  pose proof (markers_in_order _ Hi Hj Hlt) as Hord.
  pose proof (indexOf_Some_lt _ _ Hj) as Hlen.
  assert (Hex : extractCoreStandards doc = inr (trim (removeInclude (trim mid)))).
  { unfold extractCoreStandards. rewrite Hi, Hj.
    now rewrite substring_le by lia. }
  assert (Hend : ~ contains SYNC_END mid).
  { intros Hc. apply indexOf_Some_prefix_free with (p := SYNC_END) (s := doc) (i := j);
      [discriminate | exact Hj |].
    unfold mid in Hc.
    replace j with ((i + length SYNC_START) + (j - (i + length SYNC_START)))
      at 1 by lia.
    rewrite <- (firstn_skipn (i + length SYNC_START) doc) at 1.
    rewrite firstn_app, length_firstn, Nat.min_l by lia.
    apply contains_app_l.
    replace (i + length SYNC_START + (j - (i + length SYNC_START))
             - (i + length SYNC_START))
      with (j - (i + length SYNC_START)) by lia.
    exact Hc. }
  split; [|split; [exact Hex|split; [|split]]].
  - rewrite <- (firstn_skipn (i + length SYNC_START) doc) at 1.
    rewrite (indexOf_Some_firstn _ _ Hi), <- app_assoc. do 2 f_equal.
    rewrite <- (firstn_skipn (j - (i + length SYNC_START))
                  (skipn (i + length SYNC_START) doc)) at 1.
    fold mid. f_equal.
    rewrite skipn_skipn.
    replace (j - (i + length SYNC_START) + (i + length SYNC_START)) with j by lia.
    now apply indexOf_Some_skipn.
  - intros Hc. now apply Hend, contains_trim.
  - intros Hs Hinc.
    apply indexOf_None_iff in Hs. apply indexOf_None_iff in Hinc.
    assert (Hinc' : ~ contains INCLUDE_START (trim mid))
      by (intros Hc; now apply Hinc, contains_trim).
    split; [|split].
    + rewrite Hex, removeInclude_none, trim_idem; [reflexivity|].
      now apply indexOf_None_iff.
    + intros Hc. now apply Hs, contains_trim.
    + exact Hinc'.
  - intros a b c Hx Ha Hb Hc. rewrite Hex. rewrite Hx in *.
    rewrite (removeInclude_region a b c Ha Hb).
    now rewrite (removeInclude_none c Hc).
Qed.

(** The theorem at [goodDoc], whose core text has no placeholder, and at
    [regionDoc], whose core text has one. *)
Lemma C3_witness :
  (extractCoreStandards goodDoc = inr (lit "core text") /\
   ~ contains SYNC_END (lit "core text") /\
   ~ contains SYNC_START (lit "core text") /\
   ~ contains INCLUDE_START (lit "core text")) /\
  extractCoreStandards regionDoc =
    inr (trim ((lit "# Core" ++ nl) ++ (nl ++ lit "tail"))).
Proof.
  split.
  - destruct (@C3_core_between_markers goodDoc 30 60)
      as [_ [_ [H3 [H4 _]]]]; [reflexivity | reflexivity | lia |].
    destruct H4 as [H5 [H6 H7]]; [reflexivity | reflexivity |].
    split; [exact H5|]. split; [exact H3|]. split; [exact H6 | exact H7].
  - destruct (@C3_core_between_markers regionDoc 3 92)
      as [_ [_ [_ [_ H]]]]; [reflexivity | reflexivity | lia |].
    apply (H (lit "# Core" ++ nl) (lit "zz") (nl ++ lit "tail")); reflexivity.
Defined.

End Extraction.

(** ** Metadata *)

Section MetadataFacts.

Lemma takeWhile_dropWhile (f : N -> bool) (s : jsstring) :
  s = takeWhile f s ++ dropWhile f s.
Proof.
  induction s as [|c s IH]; simpl; [reflexivity|].
  destruct (f c); simpl; [now f_equal | reflexivity].
Qed.

Lemma takeWhile_all (f : N -> bool) (s : jsstring) :
  forallb f (takeWhile f s) = true.
Proof.
  induction s as [|c s IH]; simpl; [reflexivity|].
  destruct (f c) eqn:E; simpl; [now rewrite E | reflexivity].
Qed.

Lemma takeWhile_stop (f : N -> bool) (v r : jsstring) (x : N) :
  forallb f v = true -> f x = false -> takeWhile f (v ++ x :: r) = v.
Proof.
  intros Hv Hx. induction v as [|c v IH]; simpl in *.
  - now rewrite Hx.
  - apply andb_true_iff in Hv as [Hc Hv]. rewrite Hc. f_equal. now apply IH.
Qed.

Lemma dropWhile_stop (f : N -> bool) (v r : jsstring) (x : N) :
  forallb f v = true -> f x = false -> dropWhile f (v ++ x :: r) = x :: r.
Proof.
  intros Hv Hx. induction v as [|c v IH]; simpl in *.
  - now rewrite Hx.
  - apply andb_true_iff in Hv as [Hc Hv]. rewrite Hc. now apply IH.
Qed.

Lemma match_here_sound (opening : jsstring) (cls : N -> bool)
    (closing s v : jsstring) :
  match_here opening cls closing s = Some v ->
  v <> [] /\ forallb cls v = true /\
  exists post, s = opening ++ v ++ closing ++ post.
Proof.
  unfold match_here. intros H.
  destruct (startsWith opening s) eqn:Eo; [|discriminate].
  apply startsWith_inv in Eo.
  set (rest := skipn (length opening) s) in *.
  pose proof (takeWhile_dropWhile cls rest) as Hr.
  pose proof (takeWhile_all cls rest) as Ha.
  destruct (takeWhile cls rest) as [|c w] eqn:Ew; [discriminate|].
  destruct (startsWith closing (dropWhile cls rest)) eqn:Ec; [|discriminate].
  injection H as <-. apply startsWith_inv in Ec.
  split; [discriminate|]. split; [exact Ha|].
  eexists. rewrite Eo at 1. f_equal. rewrite Hr at 1. f_equal. exact Ec.
Qed.

Lemma match_here_complete (opening : jsstring) (cls : N -> bool)
    (closing v post : jsstring) (x : N) (closing' : jsstring) :
  closing = x :: closing' -> cls x = false ->
  v <> [] -> forallb cls v = true ->
  match_here opening cls closing (opening ++ v ++ closing ++ post) = Some v.
Proof.
  intros -> Hx Hv Ha. unfold match_here.
  rewrite startsWith_app, skipn_app, Nat.sub_diag, skipn_all. simpl skipn.
  cbn [app].
  rewrite takeWhile_stop, dropWhile_stop by assumption.
  destruct v as [|c v]; [congruence|].
  change (x :: closing' ++ post) with ((x :: closing') ++ post).
  now rewrite startsWith_app.
Qed.

(** [regex_capture] finds a marker exactly when one occurs. *)
Lemma regex_capture_None_iff (opening : jsstring) (cls : N -> bool)
    (closing : jsstring) (x : N) (closing' : jsstring) (s : jsstring) :
  closing = x :: closing' -> cls x = false ->
  (regex_capture opening cls closing s = None <->
   ~ marker_occurs opening cls closing s).
Proof.
  intros Hcl Hx. split.
  - induction s as [|c s IH]; intros H [pre [v [post [Hv [Ha Hs]]]]].
    + simpl in H.
      destruct (match_here opening cls closing []) eqn:E; [discriminate|].
      destruct pre; [|discriminate]. simpl in Hs. rewrite Hs in E.
      rewrite (@match_here_complete opening cls closing v post x closing' Hcl Hx Hv Ha) in E.
      discriminate.
    + simpl in H.
      destruct (match_here opening cls closing (c :: s)) eqn:E; [discriminate|].
      destruct pre as [|y pre]; simpl in Hs.
      * rewrite Hs in E.
        rewrite (@match_here_complete opening cls closing v post x closing' Hcl Hx Hv Ha) in E.
        discriminate.
      * injection Hs as _ Hs. apply IH; [exact H|].
        now exists pre, v, post.
  - intros Hno.
    destruct (regex_capture opening cls closing s) as [v|] eqn:E; [|reflexivity].
    exfalso; apply Hno. clear Hno.
    induction s as [|c s IH]; simpl in E.
    + destruct (match_here opening cls closing []) as [w|] eqn:Em; [|discriminate].
      apply match_here_sound in Em as [Hw [Ha [post Hs]]].
      now exists [], w, post.
    + destruct (match_here opening cls closing (c :: s)) as [w|] eqn:Em.
      * apply match_here_sound in Em as [Hw [Ha [post Hs]]].
        now exists [], w, post.
      * destruct (IH E) as [pre [w [post [Hw [Ha Hs]]]]].
        exists (c :: pre), w, post. simpl. now rewrite <- Hs.
Qed.

Lemma versionMatch_None_iff (text : jsstring) :
  versionMatch text = None <->
  ~ marker_occurs VERSION_OPEN versionChar COMMENT_CLOSE text.
Proof.
  unfold versionMatch.
  apply regex_capture_None_iff with (x := 32%N) (closing' := lit "-->");
    reflexivity.
Qed.

Lemma lastUpdatedMatch_None_iff (text : jsstring) :
  lastUpdatedMatch text = None <->
  ~ marker_occurs LAST_UPDATED_OPEN dateChar COMMENT_CLOSE text.
Proof.
  unfold lastUpdatedMatch.
  apply regex_capture_None_iff with (x := 32%N) (closing' := lit "-->");
    reflexivity.
Qed.

Lemma dec_notT (k : nat) (n : N) : forallb notT (dec k n) = true.
Proof.
  revert n; induction k as [|k IH]; intros n; [reflexivity|].
  cbn [dec]. rewrite forallb_app, IH. cbn [forallb andb].
  rewrite andb_true_r.
  unfold notT. apply negb_true_iff, N.eqb_neq.
  pose proof (N.mod_upper_bound n 10). lia.
Qed.

Lemma dec_length (k : nat) (n : N) : length (dec k n) = k.
Proof.
  revert n; induction k as [|k IH]; intros n; [reflexivity|].
  cbn [dec]. rewrite length_app, IH. cbn [length]. lia.
Qed.

Lemma isoDate_notT (d : DateTime) : forallb notT (isoDate d) = true.
Proof.
  unfold isoDate.
  destruct (year d <=? 9999)%N;
    rewrite !forallb_app, !dec_notT; reflexivity.
Qed.

(** The date part of the ISO timestamp is what stands before its "T". *)
Lemma split_T_0_toISOString (d : DateTime) :
  split_T_0 (toISOString d) = isoDate d.
Proof.
  unfold split_T_0, toISOString.
  change (lit "T" ++ isoTime d) with (84%N :: isoTime d).
  apply takeWhile_stop; [apply isoDate_notT | reflexivity].
Qed.

Lemma isoDate_length (d : DateTime) :
  (year d <= 9999)%N -> length (isoDate d) = 10.
Proof.
  intros Hy. unfold isoDate. apply N.leb_le in Hy. rewrite Hy.
  rewrite !length_app, !dec_length. reflexivity.
Qed.

(** C4: on a canonical document in which neither regular expression of
    [extractMetadata] finds a marker, the function returns exactly the record
    with version "1.0.0" and, as lastUpdated, the date part of the clock
    reading (UTC), which for years up to 9999 is YYYY-MM-DD: four digits of the
    year, two of the month, two of the day; the clock is read once. *)
Theorem C4_metadata_defaults (text : jsstring) (e : Env) (s : State) :
  versionMatch text = None -> lastUpdatedMatch text = None ->
  let now := clock e (ticks s) in
  extractMetadata text e s =
  (Returned {| version := lit "1.0.0"; lastUpdated := isoDate now |},
   {| ticks := S (ticks s); written := written s; console := console s |}) /\
  ((year now <= 9999)%N ->
   isoDate now =
   dec 4 (year now) ++ lit "-" ++ dec 2 (month now) ++ lit "-"
   ++ dec 2 (day now) /\
   length (isoDate now) = 10).
Proof.
  intros Hv Hu now. split.
  - unfold extractMetadata, bind, newDate, ret. rewrite Hu, Hv.
    now rewrite split_T_0_toISOString.
  - intros Hy. split; [|now apply isoDate_length].
    unfold isoDate. apply N.leb_le in Hy. now rewrite Hy.
Qed.

(** The theorem at [plainDoc], the clock showing 2024-03-09. *)
Lemma C4_witness :
  extractMetadata plainDoc plainEnv initial =
  (Returned {| version := lit "1.0.0"; lastUpdated := lit "2024-03-09" |},
   {| ticks := 1; written := []; console := [] |}).
Proof.
  apply (proj1 (C4_metadata_defaults plainDoc plainEnv initial eq_refl eq_refl)).
Defined.

End MetadataFacts.

(** ** Per-topic files *)

Section MdcFacts.

Lemma split_nl_cons (s : jsstring) : exists l ls, split_nl s = l :: ls.
Proof.
  destruct s as [|c s]; simpl; [now eexists; eexists|].
  destruct (N.eqb c 10); [now eexists; eexists|].
  destruct (split_nl s); now eexists; eexists.
Qed.

Lemma join_nl_cons (a b : jsstring) (r : list jsstring) :
  join_nl (a :: b :: r) = a ++ nl ++ join_nl (b :: r).
Proof. reflexivity. Qed.

Lemma split_nl_join (s : jsstring) : join_nl (split_nl s) = s.
Proof.
  induction s as [|c s IH]; [reflexivity|].
  destruct (split_nl_cons s) as [l [ls Hs]].
  cbn [split_nl]. rewrite Hs in *.
  destruct (N.eqb c 10) eqn:E.
  - apply N.eqb_eq in E; subst c.
    rewrite join_nl_cons, IH. reflexivity.
  - destruct ls as [|l' ls].
    + cbn [join_nl] in *. now rewrite IH.
    + rewrite join_nl_cons in *. cbn [app]. now rewrite IH.
Qed.

Lemma split_nl_rest (s : jsstring) :
  join_nl (slice1 (split_nl s)) = afterFirstLine s.
Proof.
  unfold slice1.
  induction s as [|c s IH]; [reflexivity|].
  destruct (split_nl_cons s) as [l [ls Hs]].
  cbn [split_nl afterFirstLine].
  destruct (N.eqb c 10); cbn [tl]; [apply split_nl_join|].
  rewrite Hs in *. exact IH.
Qed.

Lemma startsWith_blank_first (s : jsstring) :
  startsWith [32%N] (hd [] (split_nl s)) = startsWith [32%N] s.
Proof.
  destruct s as [|d s]; [reflexivity|].
  destruct (split_nl_cons s) as [l [ls Hs]].
  cbn [split_nl]. rewrite Hs.
  destruct (N.eqb d 10) eqn:E.
  - apply N.eqb_eq in E; subst d. reflexivity.
  - cbn [hd startsWith]. reflexivity.
Qed.

Lemma split_nl_first (s : jsstring) :
  startsWith (lit "# ") (hd [] (split_nl s)) = startsWith (lit "# ") s.
Proof.
  change (lit "# ") with [35%N; 32%N].
  destruct s as [|c s]; [reflexivity|].
  pose proof (startsWith_blank_first s) as H.
  destruct (split_nl_cons s) as [l [ls Hs]].
  cbn [split_nl]. rewrite Hs in *.
  destruct (N.eqb c 10) eqn:E.
  - apply N.eqb_eq in E; subst c. reflexivity.
  - cbn [hd] in *. cbn [startsWith] in *. now rewrite H.
Qed.

Lemma startsWith_hash (s : jsstring) :
  startsWith (lit "# ") s = true -> startsWith (lit "#") s = true.
Proof.
  change (lit "# ") with [35%N; 32%N]. change (lit "#") with [35%N].
  destruct s as [|c s]; simpl; [discriminate|].
  intros H. apply andb_true_iff in H as [H _]. now rewrite H.
Qed.

(** The body of a .mdc file, without the detour over the lines. *)
Lemma mdcBody_eq (ruleContent : jsstring) :
  mdcBody ruleContent =
  if startsWith (lit "# ") (trim ruleContent)
  then trim (afterFirstLine (trim ruleContent))
  else trim ruleContent.
Proof.
  unfold mdcBody. rewrite split_nl_first, split_nl_rest.
  destruct (startsWith (lit "# ") (trim ruleContent)) eqn:E.
  - now rewrite (startsWith_hash _ E).
  - now destruct (startsWith (lit "#") (trim ruleContent)).
Qed.

(** C6 as stated fails: the text [oneLineTopic] has no heading line, and the
    body behind the frontmatter is not that text: its final line feed is
    gone. *)
Lemma C6_counterexample :
  generateMdcContent oneLineTopic (lit "A") (lit "d") =
    frontmatter (lit "d") ++ lit "a" /\
  ~ (exists body,
        generateMdcContent oneLineTopic (lit "A") (lit "d") =
          frontmatter (lit "d") ++ body /\
        bodyAsSpecified oneLineTopic body).
Proof.
  split; [vm_compute; reflexivity|].
  intros [body [Hgen Hbody]].
  assert (Hb : body = lit "a").
  { apply (app_inv_head (frontmatter (lit "d"))). rewrite <- Hgen.
    vm_compute. reflexivity. }
  subst body.
  destruct Hbody as [H | [h [[Hh _] [H | [H _]]]]].
  - vm_compute in H. discriminate.
  - apply startsWith_inv in Hh. rewrite Hh in H. vm_compute in H. discriminate.
  - apply startsWith_inv in Hh. rewrite Hh in H. vm_compute in H. discriminate.
Qed.

(** C6, amended: the per-topic output is the frontmatter block (a line of
    three hyphens, the description, the globs line with the single-quoted
    '*.ts,*.tsx,*.js,*.jsx', the line alwaysApply: true, a line of three
    hyphens, an empty line) followed by the body; the body is the trimmed
    topic text when that does not start with "# ", and otherwise the trimmed
    rest of the trimmed topic text behind its first line.  Every file written
    for a topic has this shape, with the topic's name in the description. *)
Theorem C6_mdc_frontmatter_and_body :
  (forall ruleContent ruleName description : jsstring,
      generateMdcContent ruleContent ruleName description =
      lit "---" ++ nl
      ++ lit "description: " ++ description ++ nl
      ++ lit "globs: '*.ts,*.tsx,*.js,*.jsx'" ++ nl
      ++ lit "alwaysApply: true" ++ nl
      ++ lit "---" ++ nl
      ++ nl
      ++ (if startsWith (lit "# ") (trim ruleContent)
          then trim (afterFirstLine (trim ruleContent))
          else trim ruleContent)) /\
  (forall rule : LoadedRule,
      mdcOutput rule =
      (path_join CURSOR_RULES_DIR (key (info rule) ++ lit ".mdc"),
       generateMdcContent (content rule) (name (info rule))
         (name (info rule) ++ lit " rules for React TypeScript development"))).
Proof.
  split; [|reflexivity].
  intros ruleContent ruleName description.
  unfold generateMdcContent, frontmatter. rewrite mdcBody_eq.
  now rewrite <- !app_assoc.
Qed.

Example mdc_headed :
  generateMdcContent headedTopic (lit "Testing") (lit "d") =
  frontmatter (lit "d") ++ lit "# Second" ++ nl ++ lit "body".
Proof. vm_compute. reflexivity. Qed.

End MdcFacts.

(** ** Aggregate documents *)

Section AggregateFacts.

Lemma copilotDocument_index (now core : jsstring) (rules : list LoadedRule)
    (md : Metadata) :
  copilotDocument now core rules md =
  listedDocument
    (aggregateHead (lit "# GitHub Copilot Instructions") now core md)
    linkedEntry detailedRulesTail plainEntry closingSections
    (filter hasContent rules).
Proof.
  unfold copilotDocument, listedDocument.
  rewrite !appendEntries_index. unfold topicIndex.
  now rewrite <- !app_assoc.
Qed.

Lemma replitDocument_index (now core : jsstring) (rules : list LoadedRule)
    (md : Metadata) :
  replitDocument now core rules md =
  listedDocument
    (aggregateHead (lit "# Replit AI Instructions") now core md)
    linkedEntry detailedRulesTail plainEntry closingSections
    (filter hasContent rules).
Proof.
  unfold replitDocument, listedDocument.
  rewrite !appendEntries_index. unfold topicIndex.
  now rewrite <- !app_assoc.
Qed.

Lemma cursorDocument_index (core : jsstring) (rules : list LoadedRule)
    (md : Metadata) :
  generateCursorMainRules core rules md =
  listedDocument (cursorHead core)
    cursorSeeEntry cursorMiddle cursorFromEntry cursorClosing
    (filter hasContent rules).
Proof.
  unfold generateCursorMainRules, listedDocument.
  rewrite !appendEntries_index. unfold topicIndex.
  now rewrite <- !app_assoc.
Qed.

(** C7 as stated fails for the third renderer: the Cursor document for
    [sampleMetadata] contains neither the version nor the generated-file
    banner, and no "Last Updated" field. *)
Lemma C7_counterexample :
  ~ contains (version sampleMetadata)
      (generateCursorMainRules (lit "core") [] sampleMetadata) /\
  ~ contains generatedBanner
      (generateCursorMainRules (lit "core") [] sampleMetadata) /\
  ~ contains (lit "Last Updated")
      (generateCursorMainRules (lit "core") [] sampleMetadata).
Proof.
  repeat split; apply indexOf_None_iff; vm_compute; reflexivity.
Qed.

(** C7, amended: the Copilot and the Replit document are, in this order,
    the title, the generated-file banner, the version of the metadata, the
    timestamp of the clock reading (not the lastUpdated of the metadata), the
    core block verbatim, and two indexes with one entry for each rule that has
    content, in list order, and none for a rule without content.  The Cursor
    document is its frontmatter and title, a banner naming the single source of
    truth, the core block verbatim and two such indexes; it embeds neither
    version nor timestamp: it does not depend on the metadata. *)
Theorem C7_aggregate_structure :
  forall (core : jsstring) (rules : list LoadedRule) (md : Metadata)
         (e : Env) (s : State),
    let now := toISOString (clock e (ticks s)) in
    let s' := {| ticks := S (ticks s); written := written s;
                 console := console s |} in
    let head title :=
      title ++ nl ++ nl ++ generatedBanner ++ nl ++ nl
      ++ lit "**Rules Version:** " ++ version md ++ lit "  " ++ nl
      ++ lit "**Last Updated:** " ++ now ++ nl ++ nl
      ++ core ++ nl ++ nl
      ++ lit "## Detailed Rules" ++ nl ++ nl
      ++ lit "For comprehensive guidelines, refer to the following rule files in `docs/rules/`:"
      ++ nl ++ nl in
    let listed := filter hasContent rules in
    generateCopilotInstructions core rules md e s =
      (Returned
         (head (lit "# GitHub Copilot Instructions")
          ++ concat (map linkedEntry listed) ++ detailedRulesTail
          ++ concat (map plainEntry listed) ++ closingSections), s') /\
    generateReplitInstructions core rules md e s =
      (Returned
         (head (lit "# Replit AI Instructions")
          ++ concat (map linkedEntry listed) ++ detailedRulesTail
          ++ concat (map plainEntry listed) ++ closingSections), s') /\
    generateCursorMainRules core rules md =
      cursorHead core
      ++ concat (map cursorSeeEntry listed) ++ cursorMiddle
      ++ concat (map cursorFromEntry listed) ++ cursorClosing /\
    (forall md', generateCursorMainRules core rules md'
                 = generateCursorMainRules core rules md).
Proof.
  intros core rules md e s now s' head listed.
  split; [|split; [|split]].
  - unfold generateCopilotInstructions, bind, newDate, ret.
    rewrite copilotDocument_index. unfold listedDocument, aggregateHead.
    fold now. fold s'. subst head. cbv beta.
    now rewrite <- !app_assoc.
  - unfold generateReplitInstructions, bind, newDate, ret.
    rewrite replitDocument_index. unfold listedDocument, aggregateHead.
    fold now. fold s'. subst head. cbv beta.
    now rewrite <- !app_assoc.
  - apply cursorDocument_index.
  - reflexivity.
Qed.

End AggregateFacts.

(** ** Runs *)

Section Runs.

Lemma eqs_iff (a b : jsstring) : eqs a b = true <-> a = b.
Proof.
  revert b; induction a as [|x a IH]; intros [|y b]; simpl;
    try (split; [discriminate | discriminate]); [tauto|].
  rewrite andb_true_iff, N.eqb_eq, IH. split.
  - now intros [-> ->].
  - intros H. now injection H.
Qed.

Lemma loadedRules_info (fs : jsstring -> option jsstring)
    (table : list RuleTopic) :
  map info (loadedRules fs table) =
  filter (fun t => truthy (fs (rulePath t))) table.
Proof.
  unfold loadedRules.
  induction table as [|t table IH]; [reflexivity|].
  cbn [flat_map filter].
  destruct (fs (rulePath t)) as [[|c text]|]; cbn [truthy]; try exact IH.
  cbn [app map info]. now rewrite IH.
Qed.

Lemma loadedRules_hasContent (fs : jsstring -> option jsstring)
    (table : list RuleTopic) :
  filter hasContent (loadedRules fs table) = loadedRules fs table.
Proof.
  unfold loadedRules.
  induction table as [|t table IH]; [reflexivity|].
  cbn [flat_map].
  destruct (fs (rulePath t)) as [[|c text]|]; try exact IH.
  cbn [app filter hasContent content truthy]. now rewrite IH.
Qed.

Lemma loadedRules_content (fs : jsstring -> option jsstring)
    (table : list RuleTopic) (r : LoadedRule) :
  In r (loadedRules fs table) ->
  In (info r) table /\ fs (rulePath (info r)) = Some (content r) /\
  content r <> [].
Proof.
  unfold loadedRules.
  induction table as [|t table IH]; [contradiction|].
  cbn [flat_map]. intros H. apply in_app_or in H as [H|H].
  - destruct (fs (rulePath t)) as [[|c text]|] eqn:E; try contradiction.
    destruct H as [<-|[]]. cbn [info content].
    split; [now left|]. split; [exact E | discriminate].
  - destruct (IH H) as [H1 H2]. split; [now right | exact H2].
Qed.

(** The files of a successful run, with one index entry and one .mdc file
    for each loaded rule. *)
Lemma renderAll_listed (table : list RuleTopic) (e : Env) (text core : jsstring) :
  renderAll table e text core =
  listedOutputs (toISOString (clock e (metadataTicks text)))
    (toISOString (clock e (S (metadataTicks text)))) core (metadataOf e text)
    (loadedRules (files e) table).
Proof.
  unfold renderAll, listedOutputs.
  rewrite copilotDocument_index, replitDocument_index, cursorDocument_index.
  now rewrite loadedRules_hasContent.
Qed.

Lemma filter_all_true {A} (f : A -> bool) (l : list A) :
  forallb f l = true -> filter f l = l.
Proof.
  induction l as [|x l IH]; [reflexivity|]. cbn [forallb filter].
  intros H. apply andb_true_iff in H as [Hx Hl]. rewrite Hx. now rewrite IH.
Qed.


Lemma renderAll_prefix (table : list RuleTopic) (e : Env) (c : N)
    (text' core : jsstring) :
  files e AI_INSTRUCTIONS_FILE = Some (c :: text') ->
  extractCoreStandards (c :: text') = inr core ->
  outputs (main table e) =
  firstn (writtenCount table e (c :: text') core)
    (listedOutputs (toISOString (clock e (metadataTicks (c :: text'))))
       (toISOString (clock e (S (metadataTicks (c :: text'))))) core
       (metadataOf e (c :: text')) (loadedRules (files e) table)).
Proof.
  intros Hf Hc. rewrite (@main_valid table e c text' core Hf Hc). unfold validRun.
  cbn [outputs]. now rewrite renderAll_listed.
Qed.

Lemma main_success_listed (table : list RuleTopic) (e : Env) (c : N)
    (text' core : jsstring) :
  files e AI_INSTRUCTIONS_FILE = Some (c :: text') ->
  extractCoreStandards (c :: text') = inr core ->
  exit_code (main table e) = 0%N ->
  outputs (main table e) =
  listedOutputs (toISOString (clock e (metadataTicks (c :: text'))))
    (toISOString (clock e (S (metadataTicks (c :: text'))))) core
    (metadataOf e (c :: text')) (loadedRules (files e) table).
Proof.
  intros Hf Hc H0. rewrite (@main_success table e c text' core Hf Hc H0). cbn [outputs].
  apply renderAll_listed.
Qed.



(** C10: in a run on a readable canonical document with both markers, the
    loaded topics are the topics of the table whose file is readable and not
    empty, in table order.  The files the run writes are the first ones of the
    list made of the three aggregate documents, each index of which has its
    entries in that order, and the per-topic files in that order too; a run
    that ends with exit code 0 has written the whole list. *)
Theorem C10_table_order (table : list RuleTopic) (e : Env) (c : N)
    (text' core : jsstring) :
  files e AI_INSTRUCTIONS_FILE = Some (c :: text') ->
  extractCoreStandards (c :: text') = inr core ->
  let text := c :: text' in
  let rules := loadedRules (files e) table in
  let all :=
    listedOutputs (toISOString (clock e (metadataTicks text)))
      (toISOString (clock e (S (metadataTicks text)))) core
      (metadataOf e text) rules in
  let paths :=
    [COPILOT_FILE; REPLIT_FILE; CURSOR_MAIN_FILE]
    ++ map (fun t => path_join CURSOR_RULES_DIR (key t ++ lit ".mdc"))
         (filter (present e) table) in
  map info rules = filter (present e) table /\
  (exists k,
     outputs (main table e) = firstn k all /\
     map fst (outputs (main table e)) = firstn k paths) /\
  (exit_code (main table e) = 0%N ->
   outputs (main table e) = all /\
   map fst (outputs (main table e)) = paths).
Proof.
  intros Hf Hc text rules all paths.
  assert (Hpaths : map fst all = paths).
  { unfold all, listedOutputs, paths. rewrite map_app. cbn [map fst].
    do 3 f_equal. rewrite map_map. unfold present.
    rewrite <- loadedRules_info, map_map. reflexivity. }
  split; [apply loadedRules_info|]. split.
  - exists (writtenCount table e text core).
    rewrite (@renderAll_prefix table e c text' core Hf Hc). fold text rules all.
    split; [reflexivity|]. now rewrite <- Hpaths, firstn_map.
  - intros H0. rewrite (@main_success_listed table e c text' core Hf Hc H0).
    fold text rules all. now split.
Qed.

(** The theorem at a table of three topics, the first one missing. *)
Lemma C10_witness :
  map info (loadedRules (files oneMissingEnv) [topicA; topicB; topicC]) =
    [topicB; topicC] /\
  map fst (outputs (main [topicA; topicB; topicC] oneMissingEnv)) =
    [COPILOT_FILE; REPLIT_FILE; CURSOR_MAIN_FILE;
     lit ".cursor/rules/b.mdc"; lit ".cursor/rules/c.mdc"].
Proof.
  destruct (@C10_table_order [topicA; topicB; topicC] oneMissingEnv
              105%N (tl goodDoc) (lit "core text") eq_refl eq_refl)
    as [H1 [_ H3]].
  split; [exact H1|]. exact (proj2 (H3 eq_refl)).
Defined.

(** A write that throws: the Cursor main file cannot be written, the run
    ends with exit code 1 and the two files written before stay. *)
Example cursor_locked_run :
  exit_code (main [topicA; topicB; topicC] cursorLockedEnv) = 1%N /\
  map fst (outputs (main [topicA; topicB; topicC] cursorLockedEnv)) =
    [COPILOT_FILE; REPLIT_FILE] /\
  last (log (main [topicA; topicB; topicC] cursorLockedEnv)) Log_Start =
    Err_DuringSync (WriteFailed CURSOR_MAIN_FILE).
Proof. repeat split; vm_compute; reflexivity. Qed.

Lemma loadedRules_withoutFile (fs : jsstring -> option jsstring)
    (p : jsstring) (table : list RuleTopic) :
  fs p = Some [] ->
  loadedRules (withoutFile fs p) table = loadedRules fs table.
Proof.
  intros Hp. unfold loadedRules, withoutFile.
  induction table as [|t table IH]; [reflexivity|].
  cbn [flat_map]. rewrite IH. f_equal.
  destruct (eqs (rulePath t) p) eqn:E; [|reflexivity].
  apply eqs_iff in E. now rewrite E, Hp.
Qed.

Lemma renderAll_withoutFile (table : list RuleTopic) (e : Env)
    (p text core : jsstring) :
  files e p = Some [] ->
  renderAll table
    {| files := withoutFile (files e) p; clock := clock e;
       writable := writable e |} text core =
  renderAll table e text core.
Proof.
  intros Hp. unfold renderAll, metadataOf. cbn [files clock].
  now rewrite loadedRules_withoutFile.
Qed.

Lemma filter_flat_map {A B} (f : B -> bool) (g : A -> list B) (l : list A) :
  filter f (flat_map g l) = flat_map (fun x => filter f (g x)) l.
Proof.
  induction l as [|x l IH]; [reflexivity|].
  cbn [flat_map]. now rewrite filter_app, IH.
Qed.

Lemma loadLog_withoutFile (fs : jsstring -> option jsstring)
    (p : jsstring) (t : RuleTopic) :
  fs p = Some [] ->
  filter (notReadErrorOf p) (loadLog (withoutFile fs p) t) = loadLog fs t.
Proof.
  intros Hp. unfold loadLog, withoutFile.
  destruct (eqs (rulePath t) p) eqn:E.
  - cbn [filter notReadErrorOf]. rewrite E. cbn [negb].
    apply eqs_iff in E. now rewrite E, Hp.
  - destruct (fs (rulePath t)) as [[|c text]|]; cbn [filter notReadErrorOf];
      rewrite ?E; reflexivity.
Qed.

Lemma loadPhaseLog_withoutFile (table : list RuleTopic) (e : Env)
    (p text : jsstring) :
  files e p = Some [] ->
  filter (notReadErrorOf p)
    (loadPhaseLog table
       {| files := withoutFile (files e) p; clock := clock e;
          writable := writable e |} text) =
  loadPhaseLog table e text.
Proof.
  intros Hp. unfold loadPhaseLog, metadataOf. cbn [files clock].
  rewrite loadedRules_withoutFile by exact Hp.
  assert (H1 : filter (notReadErrorOf p)
                 (flat_map (loadLog (withoutFile (files e) p)) table) =
               flat_map (loadLog (files e)) table).
  { rewrite filter_flat_map. apply flat_map_ext. intros t.
    now apply loadLog_withoutFile. }
  rewrite !filter_app, H1. reflexivity.
Qed.

(** The console lines of the writes announce a target or name a written
    file. *)
Lemma stepsLog_lines (rules : list LoadedRule) (k : nat) (l : log_line) :
  In l (stepsLog k (writeSteps rules)) ->
  In l [Log_GeneratingCopilot; Log_GeneratingReplit; Log_GeneratingCursorMain;
        Log_GeneratingCursorIndividual] \/
  exists path, l = Log_Generated path.
Proof.
  assert (Hmdc : forall k, In l (stepsLog k (map mdcStep rules)) ->
                           exists path, l = Log_Generated path).
  { induction rules as [|r rules IH]; intros n H; [destruct n; contradiction|].
    destruct n as [|n]; [contradiction|].
    cbn [map stepsLog mdcStep before after target app] in H.
    destruct H as [<-|H]; [now eexists | now apply (IH n)]. }
  unfold writeSteps. cbn [app]. intros H.
  destruct k as [|[|[|k]]];
    cbn [stepsLog before after target app In] in H.
  - left. cbn [In]. tauto.
  - destruct H as [<-|[<-|[<-|[]]]]; cbn [In]; eauto 10.
  - destruct H as [<-|[<-|[<-|[<-|[<-|[]]]]]]; cbn [In]; eauto 10.
  - destruct H as [<-|[<-|[<-|[<-|[<-|[<-|[<-|H]]]]]]]; cbn [In]; eauto 10.
Qed.

Lemma filter_keeps {A} (f : A -> bool) (l : list A) :
  (forall x, In x l -> f x = true) -> filter f l = l.
Proof.
  intros H. apply filter_all_true. now apply forallb_forall.
Qed.

Lemma stepsLog_no_read_error (rules : list LoadedRule) (k : nat)
    (p : jsstring) :
  filter (notReadErrorOf p) (stepsLog k (writeSteps rules)) =
  stepsLog k (writeSteps rules).
Proof.
  apply filter_keeps. intros l Hl.
  apply stepsLog_lines in Hl as [Hl|[path ->]]; [|reflexivity].
  cbn [In] in Hl. destruct Hl as [<-|[<-|[<-|[<-|[]]]]]; reflexivity.
Qed.

Lemma validRun_withoutFile (table : list RuleTopic) (e : Env)
    (p text core : jsstring) :
  files e p = Some [] ->
  let e' := {| files := withoutFile (files e) p; clock := clock e;
               writable := writable e |} in
  exit_code (validRun table e text core) =
    exit_code (validRun table e' text core) /\
  outputs (validRun table e text core) =
    outputs (validRun table e' text core) /\
  log (validRun table e text core) =
    filter (notReadErrorOf p) (log (validRun table e' text core)).
Proof.
  intros Hp e'. unfold validRun, writtenCount. unfold e'.
  rewrite !renderAll_withoutFile by exact Hp.
  cbn [files clock writable exit_code outputs log].
  rewrite loadedRules_withoutFile by exact Hp.
  split; [reflexivity|]. split; [reflexivity|].
  rewrite !filter_app, loadPhaseLog_withoutFile by exact Hp.
  rewrite stepsLog_no_read_error.
  destruct (nth_error (renderAll table e text core)
              (successes (writable e) []
                 (map fst (renderAll table e text core))));
    reflexivity.
Qed.

(** C9: a file that is there and empty counts as a missing one.  Making an
    empty file unreadable changes neither the exit code nor any written file,
    and adds nothing to the console but the error line of the failed read.
    An empty AI_INSTRUCTIONS.md ends the run with the message of the failed
    read and exit code 1, before anything is written.  An empty topic file
    gets its topic skipped: the console shows the "skipped" line, and in a run
    that ends with exit code 0 no index entry and no .mdc file belongs to
    it. *)
Theorem C9_empty_file_as_missing (table : list RuleTopic) (e : Env)
    (p : jsstring) :
  files e p = Some [] ->
  let e' := {| files := withoutFile (files e) p; clock := clock e;
               writable := writable e |} in
  exit_code (main table e) = exit_code (main table e') /\
  outputs (main table e) = outputs (main table e') /\
  log (main table e) = filter (notReadErrorOf p) (log (main table e')) /\
  (p = AI_INSTRUCTIONS_FILE ->
   main table e =
   {| exit_code := 1; outputs := [];
      log := [Log_Start; Err_FailedToReadAiInstructions] |}) /\
  (forall c text' core,
      files e AI_INSTRUCTIONS_FILE = Some (c :: text') ->
      extractCoreStandards (c :: text') = inr core ->
      (forall t, In t table -> rulePath t = p ->
                 In (Log_SkippedRule (name t)) (log (main table e))) /\
      (exit_code (main table e) = 0%N ->
       exists rules,
         outputs (main table e) =
         listedOutputs (toISOString (clock e (metadataTicks (c :: text'))))
           (toISOString (clock e (S (metadataTicks (c :: text'))))) core
           (metadataOf e (c :: text')) rules /\
         (forall r, In r rules -> rulePath (info r) <> p))).
Proof.
  intros Hp e'.
  assert (Hai : p = AI_INSTRUCTIONS_FILE ->
                main table e =
                {| exit_code := 1; outputs := [];
                   log := [Log_Start; Err_FailedToReadAiInstructions] |}).
  { intros ->. rewrite main_unreadable by now rewrite Hp. now rewrite Hp. }
  assert (Hsame : exit_code (main table e) = exit_code (main table e') /\
                  outputs (main table e) = outputs (main table e') /\
                  log (main table e) =
                  filter (notReadErrorOf p) (log (main table e'))).
  { destruct (eqs AI_INSTRUCTIONS_FILE p) eqn:E.
    - assert (Hf' : files e' AI_INSTRUCTIONS_FILE = None).
      { unfold e'. cbn [files]. unfold withoutFile. now rewrite E. }
      apply eqs_iff in E. rewrite (Hai (eq_sym E)).
      rewrite (main_unreadable table e') by now rewrite Hf'.
      rewrite Hf'. cbn [exit_code outputs log app filter notReadErrorOf].
      replace (eqs AI_INSTRUCTIONS_FILE p) with true
        by (symmetry; now apply eqs_iff).
      now repeat split.
    - assert (Hf' : files e' AI_INSTRUCTIONS_FILE = files e AI_INSTRUCTIONS_FILE).
      { unfold e'. cbn [files]. unfold withoutFile. now rewrite E. }
      destruct (files e AI_INSTRUCTIONS_FILE) as [[|c text']|] eqn:Hf.
      + rewrite (main_unreadable table e) by now rewrite Hf.
        rewrite (main_unreadable table e') by now rewrite Hf'.
        rewrite Hf, Hf'. now repeat split.
      + destruct (extractCoreStandards (c :: text')) as [err|core] eqn:Hc.
        * rewrite (main_malformed table e Hf Hc).
          rewrite (main_malformed table e' Hf' Hc). now repeat split.
        * rewrite (@main_valid table e c text' core Hf Hc).
          rewrite (@main_valid table e' c text' core Hf' Hc).
          now apply validRun_withoutFile.
      + rewrite (main_unreadable table e) by now rewrite Hf.
        rewrite (main_unreadable table e') by now rewrite Hf'.
        rewrite Hf, Hf'. cbn [exit_code outputs log app filter notReadErrorOf].
        rewrite E. now repeat split. }
  destruct Hsame as [H1 [H2 H3]].
  split; [exact H1|]. split; [exact H2|]. split; [exact H3|].
  split; [exact Hai|].
  intros c text' core Hf Hc. split.
  - intros t Ht Heq. rewrite (@main_valid table e c text' core Hf Hc).
    unfold validRun, loadPhaseLog. cbn [log].
    apply in_or_app; left. apply in_or_app; right. apply in_or_app; left.
    apply in_flat_map. exists t. split; [exact Ht|].
    unfold loadLog. rewrite Heq, Hp. now left.
  - intros H0. exists (loadedRules (files e) table).
    split; [exact (@main_success_listed table e c text' core Hf Hc H0)|].
    intros r Hr Heq. apply loadedRules_content in Hr as [_ [Hr Hne]].
    rewrite Heq, Hp in Hr. injection Hr as Hr. now apply Hne.
Qed.

(** The theorem at an empty AI_INSTRUCTIONS.md. *)
Lemma C9_witness :
  main [topicC] emptyCanonicalEnv =
  {| exit_code := 1; outputs := [];
     log := [Log_Start; Err_FailedToReadAiInstructions] |}.
Proof.
  destruct (@C9_empty_file_as_missing [topicC] emptyCanonicalEnv
              AI_INSTRUCTIONS_FILE eq_refl) as [_ [_ [_ [H _]]]].
  exact (H eq_refl).
Defined.

Example empty_topic_run :
  map fst (outputs (main [topicA; topicB; topicC] emptyTopicEnv)) =
    [COPILOT_FILE; REPLIT_FILE; CURSOR_MAIN_FILE; lit ".cursor/rules/c.mdc"] /\
  In (Log_SkippedRule (name topicB))
     (log (main [topicA; topicB; topicC] emptyTopicEnv)).
Proof.
  split; [vm_compute; reflexivity|]. vm_compute. tauto.
Qed.

Lemma aggregateHead_stamp (title now core : jsstring) (md : Metadata)
    (rules : list LoadedRule) :
  appendEntries plainEntry rules
    (appendEntries linkedEntry rules (aggregateHead title now core md)
     ++ detailedRulesTail)
  ++ closingSections =
  stampPrefix title (version md) ++ lit "**Last Updated:** " ++ now
  ++ stampSuffix core rules.
Proof.
  rewrite !appendEntries_index.
  unfold aggregateHead, stampPrefix, stampSuffix.
  now rewrite <- !app_assoc.
Qed.

Lemma validRun_exit_code_eq (table : list RuleTopic) (e : Env)
    (text core : jsstring) :
  exit_code (validRun table e text core) =
  if Nat.eqb (writtenCount table e text core)
       (length (renderAll table e text core))
  then 0%N else 1%N.
Proof.
  pose proof (validRun_exit_code table e text core) as H.
  destruct (Nat.eqb_spec (writtenCount table e text core)
              (length (renderAll table e text core))) as [E|E].
  - now apply H.
  - unfold validRun in *. cbn [exit_code] in *.
    destruct (nth_error (renderAll table e text core)
                (writtenCount table e text core)); [reflexivity|].
    exfalso. apply E. now apply H.
Qed.

(** C8: two runs over the same file system, whatever the clocks show, end
    with the same exit code and write the same files in the same order; the
    Copilot and the Replit document agree everywhere except in the timestamp
    behind "Last Updated:", and the Cursor main file and every per-topic file
    are equal byte for byte.  Both runs get equally far: what they wrote are
    the first [n] files of two lists that differ in the two timestamps only,
    and all of them when the exit code is 0.  (The calendar day plays no role:
    the date that [extractMetadata] falls back to is logged and not
    written.) *)
Theorem C8_rerun_differs_in_timestamp_only (table : list RuleTopic)
    (fs : jsstring -> option jsstring) (clock1 clock2 : nat -> DateTime)
    (w : list jsstring -> jsstring -> bool) :
  let r1 := main table {| files := fs; clock := clock1; writable := w |} in
  let r2 := main table {| files := fs; clock := clock2; writable := w |} in
  exit_code r1 = exit_code r2 /\
  map fst (outputs r1) = map fst (outputs r2) /\
  exists n pre1 post1 pre2 post2 rest (a1 a2 b1 b2 : DateTime),
    outputs r1 =
      firstn n
        ((COPILOT_FILE,
          pre1 ++ lit "**Last Updated:** " ++ toISOString a1 ++ post1)
         :: (REPLIT_FILE,
             pre2 ++ lit "**Last Updated:** " ++ toISOString b1 ++ post2)
         :: rest) /\
    outputs r2 =
      firstn n
        ((COPILOT_FILE,
          pre1 ++ lit "**Last Updated:** " ++ toISOString a2 ++ post1)
         :: (REPLIT_FILE,
             pre2 ++ lit "**Last Updated:** " ++ toISOString b2 ++ post2)
         :: rest) /\
    (exit_code r1 = 0%N -> n = 2 + length rest).
Proof.
  intros r1 r2. unfold r1, r2.
  set (e1 := {| files := fs; clock := clock1; writable := w |}).
  set (e2 := {| files := fs; clock := clock2; writable := w |}).
  assert (Hfail : forall run1 run2 : Run,
             exit_code run1 = 1%N -> exit_code run2 = 1%N ->
             outputs run1 = [] -> outputs run2 = [] ->
             exit_code run1 = exit_code run2 /\
             map fst (outputs run1) = map fst (outputs run2) /\
             exists n pre1 post1 pre2 post2 rest (a1 a2 b1 b2 : DateTime),
               outputs run1 =
                 firstn n
                   ((COPILOT_FILE,
                     pre1 ++ lit "**Last Updated:** " ++ toISOString a1
                     ++ post1)
                    :: (REPLIT_FILE,
                        pre2 ++ lit "**Last Updated:** " ++ toISOString b1
                        ++ post2)
                    :: rest) /\
               outputs run2 =
                 firstn n
                   ((COPILOT_FILE,
                     pre1 ++ lit "**Last Updated:** " ++ toISOString a2
                     ++ post1)
                    :: (REPLIT_FILE,
                        pre2 ++ lit "**Last Updated:** " ++ toISOString b2
                        ++ post2)
                    :: rest) /\
               (exit_code run1 = 0%N -> n = 2 + length rest)).
  { intros run1 run2 E1 E2 O1 O2. rewrite E1, E2, O1, O2.
    split; [reflexivity|]. split; [reflexivity|].
    exists 0, [], [], [], [], [], noon, noon, noon, noon.
    repeat split. discriminate. }
  destruct (fs AI_INSTRUCTIONS_FILE) as [[|c text']|] eqn:Hf.
  - apply Hfail;
      rewrite main_unreadable by (unfold e1, e2; cbn [files]; now rewrite Hf);
      reflexivity.
  - destruct (extractCoreStandards (c :: text')) as [err|core] eqn:Hc.
    + apply Hfail;
        first [ rewrite (@main_malformed table e1 c text' err Hf Hc)
              | rewrite (@main_malformed table e2 c text' err Hf Hc) ];
        reflexivity.
    + clear Hfail.
      rewrite (@main_valid table e1 c text' core Hf Hc).
      rewrite (@main_valid table e2 c text' core Hf Hc).
      set (text := c :: text').
      set (rules := loadedRules fs table).
      assert (Hpaths : map fst (renderAll table e1 text core)
                       = map fst (renderAll table e2 text core))
        by reflexivity.
      assert (Hlen : length (renderAll table e1 text core)
                     = length (renderAll table e2 text core))
        by (rewrite <- (length_map fst), Hpaths; apply length_map).
      assert (Hk : writtenCount table e1 text core
                   = writtenCount table e2 text core)
        by (unfold writtenCount; now rewrite Hpaths).
      split; [|split].
      * rewrite !validRun_exit_code_eq. now rewrite Hk, Hlen.
      * unfold validRun. cbn [outputs].
        now rewrite <- !firstn_map, Hpaths, Hk.
      * exists (writtenCount table e1 text core),
               (stampPrefix (lit "# GitHub Copilot Instructions")
                  (version (metadataOf e1 text))),
               (stampSuffix core rules),
               (stampPrefix (lit "# Replit AI Instructions")
                  (version (metadataOf e1 text))),
               (stampSuffix core rules),
               ((CURSOR_MAIN_FILE,
                 generateCursorMainRules core rules (metadataOf e1 text))
                :: map mdcOutput rules),
               (clock1 (metadataTicks text)), (clock2 (metadataTicks text)),
               (clock1 (S (metadataTicks text))),
               (clock2 (S (metadataTicks text))).
        split; [|split].
        -- unfold validRun. cbn [outputs]. f_equal.
           unfold renderAll, copilotDocument, replitDocument.
           unfold e1. cbn [files clock app]. fold rules.
           rewrite !aggregateHead_stamp. reflexivity.
        -- unfold validRun. cbn [outputs]. rewrite <- Hk. f_equal.
           unfold renderAll, copilotDocument, replitDocument.
           unfold e2. cbn [files clock app]. fold rules.
           rewrite !aggregateHead_stamp. reflexivity.
        -- intros H0. apply validRun_exit_code in H0. rewrite H0.
           unfold renderAll. rewrite length_app. unfold e1.
           cbn [length files]. reflexivity.
  - apply Hfail;
      rewrite main_unreadable by (unfold e1, e2; cbn [files]; now rewrite Hf);
      reflexivity.
Qed.

End Runs.

(** * Further properties of the script *)

(** ** Tokens that cannot overlap themselves *)

Section Tokens.

Lemma startsWith_hits (q u r : jsstring) (c0 : N) :
  startsWith q (u ++ c0 :: r) = true -> length u < length q ->
  In c0 (skipn (length u) q).
Proof.
  revert q; induction u as [|y u IH]; intros q H Hlen.
  - destruct q as [|x q]; [simpl in Hlen; lia|].
    cbn [app startsWith] in H. apply andb_true_iff in H as [H _].
    apply N.eqb_eq in H. subst. now left.
  - destruct q as [|x q]; [simpl in Hlen; lia|].
    cbn [app startsWith] in H. apply andb_true_iff in H as [_ H].
    cbn [length skipn]. apply IH; [exact H | simpl in Hlen; lia].
Qed.

Lemma In_skipn {A} (x : A) (n : nat) (l : list A) :
  In x (skipn n l) -> In x l.
Proof.
  intros H. rewrite <- (firstn_skipn n l). apply in_or_app. now right.
Qed.

(** A token whose first character does not come back is unbordered. *)
Lemma unbordered_head (c0 : N) (p' : jsstring) :
  existsb (N.eqb c0) p' = false -> unbordered (c0 :: p').
Proof.
  intros Hno u t [Hu Hlen].
  destruct (startsWith (c0 :: p') (u ++ (c0 :: p') ++ t)) eqn:E; [|reflexivity].
  exfalso.
  change ((c0 :: p') ++ t) with (c0 :: p' ++ t) in E.
  apply startsWith_hits in E; [|exact Hlen].
  destruct u as [|y u]; [simpl in Hu; lia|].
  cbn [length skipn] in E. apply In_skipn in E.
  assert (Hex : existsb (N.eqb c0) p' = true).
  { apply existsb_exists. exists c0. split; [exact E | apply N.eqb_refl]. }
  congruence.
Qed.

Lemma SYNC_START_unbordered : unbordered SYNC_START.
Proof. apply (@unbordered_head 60%N (tl SYNC_START)). reflexivity. Qed.

Lemma SYNC_END_unbordered : unbordered SYNC_END.
Proof. apply (@unbordered_head 60%N (tl SYNC_END)). reflexivity. Qed.

Lemma INCLUDE_START_unbordered : unbordered INCLUDE_START.
Proof. apply (@unbordered_head 60%N (tl INCLUDE_START)). reflexivity. Qed.

Lemma INCLUDE_END_unbordered : unbordered INCLUDE_END.
Proof. apply (@unbordered_head 60%N (tl INCLUDE_END)). reflexivity. Qed.

Lemma VERSION_OPEN_unbordered : unbordered VERSION_OPEN.
Proof. apply (@unbordered_head 60%N (tl VERSION_OPEN)). reflexivity. Qed.

Lemma LAST_UPDATED_OPEN_unbordered : unbordered LAST_UPDATED_OPEN.
Proof. apply (@unbordered_head 60%N (tl LAST_UPDATED_OPEN)). reflexivity. Qed.

Lemma startsWith_app_long (p u r : jsstring) :
  length p <= length u -> startsWith p (u ++ r) = startsWith p u.
Proof.
  revert u; induction p as [|x p IH]; intros u H; [reflexivity|].
  destruct u as [|y u]; [simpl in H; lia|].
  cbn [app startsWith]. rewrite IH by (simpl in H; lia). reflexivity.
Qed.

Lemma indexOf_None_cons (p : jsstring) (x : N) (a : jsstring) :
  indexOf p (x :: a) = None ->
  startsWith p (x :: a) = false /\ indexOf p a = None.
Proof.
  cbn [indexOf]. destruct (startsWith p (x :: a)); [discriminate|].
  destruct (indexOf p a); [discriminate|]. now split.
Qed.

(** Before the first occurrence of an unbordered token nothing starts with
    the token. *)
Lemma startsWith_before (p : jsstring) (x : N) (a r : jsstring) :
  unbordered p -> indexOf p (x :: a) = None ->
  startsWith p ((x :: a) ++ p ++ r) = false.
Proof.
  intros Hp H. apply indexOf_None_cons in H as [H _].
  destruct (Nat.le_gt_cases (length p) (length (x :: a))) as [Hl|Hl].
  - now rewrite startsWith_app_long.
  - apply Hp. simpl in *. lia.
Qed.

Lemma indexOf_here (p s : jsstring) :
  startsWith p s = true -> indexOf p s = Some 0.
Proof. intros H. destruct s; cbn [indexOf]; now rewrite H. Qed.

Lemma indexOf_app_unbordered (p a r : jsstring) :
  unbordered p -> indexOf p a = None ->
  indexOf p (a ++ p ++ r) = Some (length a).
Proof.
  intros Hp. induction a as [|x a IH]; intros H.
  - cbn [app length]. apply indexOf_here, startsWith_app.
  - pose proof (@startsWith_before p x a r Hp H) as Hs.
    apply indexOf_None_cons in H as [_ H].
    change ((x :: a) ++ p ++ r) with (x :: (a ++ p ++ r)) in *.
    cbn [indexOf]. rewrite Hs, (IH H). reflexivity.
Qed.

End Tokens.

(** ** More on the extraction of the core standards *)

Section ExtractionMore.

Lemma dropWhile_all (f : N -> bool) (s : jsstring) :
  forallb f s = true -> dropWhile f s = [].
Proof.
  induction s as [|c s IH]; [reflexivity|]. cbn [forallb dropWhile].
  intros H. apply andb_true_iff in H as [Hc Hs]. now rewrite Hc, IH.
Qed.

Lemma trim_white (s : jsstring) :
  forallb isWhiteSpace s = true -> trim s = [].
Proof.
  intros H. unfold trim, trimEnd, trimStart.
  rewrite (dropWhile_all _ _ H). reflexivity.
Qed.

Lemma dropWhile_fixed_head (f : N -> bool) (c : N) (r : jsstring) :
  dropWhile f (c :: r) = c :: r -> f c = false.
Proof.
  cbn [dropWhile]. destruct (f c); [|reflexivity]. intros H.
  pose proof (dropWhile_length f r) as Hl. rewrite H in Hl. simpl in Hl. lia.
Qed.

Lemma trim_trimStart_fixed (s : jsstring) : trimStart (trim s) = trim s.
Proof.
  unfold trim, trimEnd, trimStart.
  set (y := dropWhile isWhiteSpace s).
  destruct (dropWhile_suffix isWhiteSpace (rev y)) as [a Ha].
  apply dropWhile_fixed_prefix with (y := y) (r := rev a).
  - apply dropWhile_idem.
  - rewrite <- rev_app_distr, <- Ha. now rewrite rev_involutive.
Qed.

Lemma trim_first (s : jsstring) (c : N) (r : jsstring) :
  trim s = c :: r -> isWhiteSpace c = false.
Proof.
  intros H. pose proof (trim_trimStart_fixed s) as Hf. rewrite H in Hf.
  now apply dropWhile_fixed_head in Hf.
Qed.

Lemma trim_last (s r : jsstring) (c : N) :
  trim s = r ++ [c] -> isWhiteSpace c = false.
Proof.
  unfold trim, trimEnd. intros H.
  apply (f_equal (@rev N)) in H.
  rewrite rev_involutive, rev_app_distr in H. cbn [rev app] in H.
  pose proof (dropWhile_idem isWhiteSpace (rev (trimStart s))) as Hi.
  rewrite H in Hi. now apply dropWhile_fixed_head in Hi.
Qed.

Lemma extract_at (pre mid post : jsstring) :
  indexOf SYNC_START pre = None ->
  indexOf SYNC_END (pre ++ SYNC_START ++ mid) = None ->
  extractCoreStandards (pre ++ SYNC_START ++ mid ++ SYNC_END ++ post) =
  inr (trim (removeInclude (trim mid))).
Proof.
  intros Hs He.
  set (doc := pre ++ SYNC_START ++ mid ++ SYNC_END ++ post).
  assert (Hi : indexOf SYNC_START doc = Some (length pre))
    by (apply indexOf_app_unbordered; [apply SYNC_START_unbordered | exact Hs]).
  assert (Hj : indexOf SYNC_END doc
               = Some (length pre + length SYNC_START + length mid)).
  { pose proof (@indexOf_app_unbordered SYNC_END (pre ++ SYNC_START ++ mid)
                  post SYNC_END_unbordered He) as H.
    rewrite <- !app_assoc in H. rewrite !length_app in H.
    unfold doc. rewrite H. f_equal. lia. }
  unfold extractCoreStandards. rewrite Hi, Hj.
  pose proof (indexOf_Some_lt _ _ Hj) as Hlen.
  rewrite substring_le by lia.
  replace (length pre + length SYNC_START + length mid
           - (length pre + length SYNC_START)) with (length mid) by lia.
  unfold doc. rewrite skipn_length_app.
  rewrite <- (Nat.add_0_r (length SYNC_START)), skipn_length_app.
  cbn [skipn]. rewrite firstn_app, Nat.sub_diag, firstn_all. cbn [firstn].
  now rewrite app_nil_r.
Qed.

(** X1: the core block is determined by what stands between the markers:
    for every text [pre] without start marker and every [mid] such that no end
    marker stands before the closing one, the document
    [pre ++ SYNC_START ++ mid ++ SYNC_END ++ post] yields [mid], trimmed,
    without its placeholder regions, trimmed again, whatever [pre] and [post]
    are. *)
Theorem X1_extract_frame (pre mid post pre' post' : jsstring) :
  indexOf SYNC_START pre = None ->
  indexOf SYNC_END (pre ++ SYNC_START ++ mid) = None ->
  indexOf SYNC_START pre' = None ->
  indexOf SYNC_END (pre' ++ SYNC_START ++ mid) = None ->
  extractCoreStandards (pre ++ SYNC_START ++ mid ++ SYNC_END ++ post) =
    inr (trim (removeInclude (trim mid))) /\
  extractCoreStandards (pre' ++ SYNC_START ++ mid ++ SYNC_END ++ post') =
    extractCoreStandards (pre ++ SYNC_START ++ mid ++ SYNC_END ++ post).
Proof.
  intros H1 H2 H3 H4. rewrite !extract_at by assumption. now split.
Qed.

(** The theorem at two documents around the same core text. *)
Lemma X1_witness :
  extractCoreStandards
    (lit "intro " ++ SYNC_START ++ lit " core " ++ SYNC_END ++ lit " outro") =
    inr (trim (removeInclude (trim (lit " core ")))) /\
  extractCoreStandards ([] ++ SYNC_START ++ lit " core " ++ SYNC_END ++ []) =
  extractCoreStandards
    (lit "intro " ++ SYNC_START ++ lit " core " ++ SYNC_END ++ lit " outro").
Proof.
  apply (@X1_extract_frame (lit "intro ") (lit " core ") (lit " outro") [] []);
    reflexivity.
Defined.

(** X2: whatever [extractCoreStandards] returns carries no white space at
    either end: trimming it changes nothing, its first and its last character
    are not white space. *)
Theorem X2_core_is_trimmed (doc core : jsstring) :
  extractCoreStandards doc = inr core ->
  trim core = core /\
  (forall c r, core = c :: r -> isWhiteSpace c = false) /\
  (forall r c, core = r ++ [c] -> isWhiteSpace c = false).
Proof.
  unfold extractCoreStandards.
  destruct (indexOf SYNC_START doc) as [i|]; [|discriminate].
  destruct (indexOf SYNC_END doc) as [j|]; [|discriminate].
  intros H. injection H as <-. split; [apply trim_idem|]. split.
  - intros c r H. now apply trim_first in H.
  - intros r c H. now apply trim_last in H.
Qed.

Lemma X2_witness :
  trim (lit "core text") = lit "core text" /\
  (forall c r, lit "core text" = c :: r -> isWhiteSpace c = false) /\
  (forall r c, lit "core text" = r ++ [c] -> isWhiteSpace c = false).
Proof.
  apply (@X2_core_is_trimmed goodDoc (lit "core text")). reflexivity.
Defined.

(** X3: markers with nothing but white space between them are no error:
    the core block is the empty string. *)
Theorem X3_blank_core (pre mid post : jsstring) :
  indexOf SYNC_START pre = None ->
  indexOf SYNC_END (pre ++ SYNC_START ++ mid) = None ->
  forallb isWhiteSpace mid = true ->
  extractCoreStandards (pre ++ SYNC_START ++ mid ++ SYNC_END ++ post) = inr [].
Proof.
  intros H1 H2 Hw. rewrite extract_at by assumption.
  now rewrite (trim_white mid Hw).
Qed.

Lemma X3_witness :
  extractCoreStandards
    (lit "a" ++ SYNC_START ++ (nl ++ lit "  " ++ nl) ++ SYNC_END ++ lit "b")
  = inr [].
Proof.
  apply (@X3_blank_core (lit "a") (nl ++ lit "  " ++ nl) (lit "b"));
    reflexivity.
Defined.

Lemma cleanPart_inv (kept inner : jsstring) :
  cleanPart (kept, inner) = true ->
  indexOf INCLUDE_START kept = None /\ indexOf INCLUDE_END inner = None.
Proof.
  unfold cleanPart, absent. cbn [fst snd].
  destruct (indexOf INCLUDE_START kept), (indexOf INCLUDE_END inner);
    try discriminate. now split.
Qed.

(** X4: every well-delimited placeholder region is removed and nothing else:
    in a text of fragments without placeholder start token, each followed by a
    region whose inner text has no placeholder end token, and a final fragment
    without start token, the removal leaves the fragments, in order. *)
Theorem X4_all_regions_removed (parts : list (jsstring * jsstring))
    (final : jsstring) :
  forallb cleanPart parts = true ->
  indexOf INCLUDE_START final = None ->
  removeInclude (placeRegions parts final) = concat (map fst parts) ++ final.
Proof.
  intros Hparts Hfinal.
  induction parts as [|[kept inner] parts IH].
  - cbn [placeRegions map concat app]. now apply removeInclude_none.
  - cbn [forallb] in Hparts. apply andb_true_iff in Hparts as [Hp Hps].
    apply cleanPart_inv in Hp as [Hk Hi].
    cbn [placeRegions map concat fst].
    rewrite removeInclude_region.
    + rewrite (IH Hps). now rewrite <- app_assoc.
    + apply indexOf_app_unbordered;
        [apply INCLUDE_START_unbordered | exact Hk].
    + apply indexOf_app_unbordered;
        [apply INCLUDE_END_unbordered | exact Hi].
Qed.

Lemma X4_witness :
  removeInclude
    (placeRegions [(lit "one ", lit "x"); (lit " two ", [])] (lit " three"))
  = concat (map fst [(lit "one ", lit "x"); (lit " two ", [])]) ++ lit " three".
Proof.
  apply (@X4_all_regions_removed
           [(lit "one ", lit "x"); (lit " two ", [])] (lit " three"));
    reflexivity.
Defined.

(** X5: a text without placeholder start token, or without placeholder end
    token (an unterminated placeholder), is left as it is. *)
Theorem X5_unterminated_placeholder_kept (s : jsstring) :
  indexOf INCLUDE_START s = None \/ indexOf INCLUDE_END s = None ->
  removeInclude s = s.
Proof.
  intros [H|H]; [now apply removeInclude_none|].
  unfold removeInclude. destruct (length s); [reflexivity|].
  cbn [removeInclude_go].
  destruct (indexOf INCLUDE_START s) as [p|]; [|reflexivity].
  destruct (indexOf INCLUDE_END (skipn (p + length INCLUDE_START) s))
    as [q|] eqn:E; [|reflexivity].
  exfalso. apply indexOf_None_iff in H. apply H.
  apply contains_skipn with (n := p + length INCLUDE_START).
  apply indexOf_Some_split in E. rewrite E.
  now eexists; eexists.
Qed.

Lemma X5_witness : removeInclude openPlaceholder = openPlaceholder.
Proof.
  apply (@X5_unterminated_placeholder_kept openPlaceholder).
  right. reflexivity.
Defined.

End ExtractionMore.

(** ** More on the metadata *)

Section MetadataMore.

Lemma regex_capture_here (opening : jsstring) (cls : N -> bool)
    (closing s v : jsstring) :
  match_here opening cls closing s = Some v ->
  regex_capture opening cls closing s = Some v.
Proof. intros H. destruct s; cbn [regex_capture]; now rewrite H. Qed.

Lemma regex_capture_skip (opening : jsstring) (cls : N -> bool)
    (closing : jsstring) (x : N) (s : jsstring) :
  startsWith opening (x :: s) = false ->
  regex_capture opening cls closing (x :: s) =
  regex_capture opening cls closing s.
Proof.
  intros H. cbn [regex_capture]. unfold match_here at 1. now rewrite H.
Qed.

(** The leftmost marker is the one that is read. *)
Lemma regex_capture_first (opening : jsstring) (cls : N -> bool)
    (closing : jsstring) (x : N) (closing' pre v post : jsstring) :
  unbordered opening -> closing = x :: closing' -> cls x = false ->
  indexOf opening pre = None -> v <> [] -> forallb cls v = true ->
  regex_capture opening cls closing (pre ++ opening ++ v ++ closing ++ post)
  = Some v.
Proof.
  intros Hu Hcl Hx Hpre Hv Ha.
  induction pre as [|y pre IH].
  - cbn [app]. apply regex_capture_here.
    exact (@match_here_complete opening cls closing v post x closing'
             Hcl Hx Hv Ha).
  - pose proof (@startsWith_before opening y pre (v ++ closing ++ post)
                  Hu Hpre) as Hs.
    apply indexOf_None_cons in Hpre as [_ Hpre].
    change ((y :: pre) ++ opening ++ v ++ closing ++ post)
      with (y :: (pre ++ opening ++ v ++ closing ++ post)) in *.
    rewrite regex_capture_skip by exact Hs. now apply IH.
Qed.

Lemma regex_capture_sound (opening : jsstring) (cls : N -> bool)
    (closing s v : jsstring) :
  regex_capture opening cls closing s = Some v ->
  v <> [] /\ forallb cls v = true.
Proof.
  induction s as [|c s IH]; cbn [regex_capture]; intros H.
  - destruct (match_here opening cls closing []) as [w|] eqn:E;
      [|discriminate].
    injection H as <-. apply match_here_sound in E. tauto.
  - destruct (match_here opening cls closing (c :: s)) as [w|] eqn:E.
    + injection H as <-. apply match_here_sound in E. tauto.
    + now apply IH.
Qed.

Lemma isoDate_nonempty (d : DateTime) : isoDate d <> [].
Proof.
  intros H. apply (f_equal (@length N)) in H. unfold isoDate in H.
  destruct (year d <=? 9999)%N;
    rewrite !length_app, !dec_length in H; simpl in H; lia.
Qed.

(** X6: metadata markers are read back: in a document whose first
    VERSION marker carries the digits-and-dots value [v] and whose first
    LAST_UPDATED marker carries the digits-and-hyphens value [u],
    [extractMetadata] returns exactly [v] and [u] and does not read the
    clock. *)
Theorem X6_metadata_read_back (text a1 b1 a2 b2 v u : jsstring)
    (e : Env) (s : State) :
  text = a1 ++ VERSION_OPEN ++ v ++ COMMENT_CLOSE ++ b1 ->
  text = a2 ++ LAST_UPDATED_OPEN ++ u ++ COMMENT_CLOSE ++ b2 ->
  indexOf VERSION_OPEN a1 = None ->
  indexOf LAST_UPDATED_OPEN a2 = None ->
  v <> [] -> forallb versionChar v = true ->
  u <> [] -> forallb dateChar u = true ->
  extractMetadata text e s =
  (Returned {| version := v; lastUpdated := u |}, s).
Proof.
  intros Hv Hu Ha1 Ha2 Hv0 Hvc Hu0 Huc.
  assert (H1 : versionMatch text = Some v).
  { rewrite Hv. unfold versionMatch.
    apply regex_capture_first with (x := 32%N) (closing' := lit "-->");
      try assumption; try reflexivity. apply VERSION_OPEN_unbordered. }
  assert (H2 : lastUpdatedMatch text = Some u).
  { rewrite Hu. unfold lastUpdatedMatch.
    apply regex_capture_first with (x := 32%N) (closing' := lit "-->");
      try assumption; try reflexivity. apply LAST_UPDATED_OPEN_unbordered. }
  unfold extractMetadata, bind, ret. now rewrite H2, H1.
Qed.

(** The theorem at [fullDoc]. *)
Lemma X6_witness :
  extractMetadata fullDoc fullEnv initial =
  (Returned {| version := lit "2.1.0"; lastUpdated := lit "2025-01-31" |},
   initial).
Proof.
  apply (@X6_metadata_read_back fullDoc
           (firstn 8 fullDoc) (skipn 31 fullDoc)
           (firstn 32 fullDoc) (skipn 65 fullDoc)
           (lit "2.1.0") (lit "2025-01-31") fullEnv initial);
    try reflexivity; discriminate.
Defined.

(** X7: [extractMetadata] always returns, without writing or logging, and
    reads the clock at most once.  The version it returns is never empty and
    holds only digits and dots; lastUpdated is never empty and is either a
    string of digits and hyphens taken from the document or the date of the
    clock reading. *)
Theorem X7_metadata_well_formed (text : jsstring) (e : Env) (s : State) :
  exists md s',
    extractMetadata text e s = (Returned md, s') /\
    version md <> [] /\ forallb versionChar (version md) = true /\
    lastUpdated md <> [] /\
    (forallb dateChar (lastUpdated md) = true \/
     lastUpdatedMatch text = None /\
     lastUpdated md = isoDate (clock e (ticks s))) /\
    written s' = written s /\ console s' = console s /\
    (ticks s' = ticks s \/ ticks s' = S (ticks s)).
Proof.
  assert (Hver : forall v0,
             v0 = match versionMatch text with
                  | Some v => v
                  | None => lit "1.0.0"
                  end ->
             v0 <> [] /\ forallb versionChar v0 = true).
  { intros v0 ->. destruct (versionMatch text) as [v|] eqn:E.
    - now apply regex_capture_sound in E.
    - split; [discriminate | reflexivity]. }
  unfold extractMetadata, bind, ret, newDate.
  destruct (lastUpdatedMatch text) as [u|] eqn:E.
  - apply regex_capture_sound in E as [Hu Hc].
    eexists; eexists. split; [reflexivity|]. cbn [version lastUpdated].
    destruct (Hver _ eq_refl) as [H1 H2].
    repeat split; try assumption; auto.
  - eexists; eexists. split; [reflexivity|].
    cbn [version lastUpdated ticks written console].
    destruct (Hver _ eq_refl) as [H1 H2].
    rewrite split_T_0_toISOString.
    repeat split; try assumption; auto.
    apply isoDate_nonempty.
Qed.

End MetadataMore.

(** ** More on runs *)

Section RunsMore.

Lemma renderAll_length (table : list RuleTopic) (e : Env)
    (text core : jsstring) :
  length (renderAll table e text core) =
  3 + length (filter (present e) table).
Proof.
  unfold renderAll. rewrite length_app, length_map. cbn [length].
  rewrite <- (length_map info), loadedRules_info. reflexivity.
Qed.

(** X8: a run ends with exit code 0 or 1; with 0 exactly when
    AI_INSTRUCTIONS.md is readable, not empty, contains both sync markers and
    every write goes through.  The files written are the first ones of the
    full list, up to the first write that throws: never more than three plus
    one for each topic whose file is readable and not empty, and exactly that
    many when the exit code is 0. *)
Theorem X8_exit_code_and_writes (table : list RuleTopic) (e : Env) :
  (exit_code (main table e) = 0%N \/ exit_code (main table e) = 1%N) /\
  (exit_code (main table e) = 0%N <->
   exists c text' core,
     files e AI_INSTRUCTIONS_FILE = Some (c :: text') /\
     extractCoreStandards (c :: text') = inr core /\
     writtenCount table e (c :: text') core =
       length (renderAll table e (c :: text') core)) /\
  (exit_code (main table e) = 0%N ->
   length (outputs (main table e)) = 3 + length (filter (present e) table)) /\
  length (outputs (main table e)) <= 3 + length (filter (present e) table) /\
  (forall c text' core,
      files e AI_INSTRUCTIONS_FILE = Some (c :: text') ->
      extractCoreStandards (c :: text') = inr core ->
      outputs (main table e) =
      firstn (writtenCount table e (c :: text') core)
        (renderAll table e (c :: text') core)).
Proof.
  assert (Hbad : exit_code (main table e) = 1%N ->
                 outputs (main table e) = [] ->
                 (forall c text' core,
                     files e AI_INSTRUCTIONS_FILE = Some (c :: text') ->
                     extractCoreStandards (c :: text') = inr core -> False) ->
                 (exit_code (main table e) = 0%N \/
                  exit_code (main table e) = 1%N) /\
                 (exit_code (main table e) = 0%N <->
                  exists c text' core,
                    files e AI_INSTRUCTIONS_FILE = Some (c :: text') /\
                    extractCoreStandards (c :: text') = inr core /\
                    writtenCount table e (c :: text') core =
                      length (renderAll table e (c :: text') core)) /\
                 (exit_code (main table e) = 0%N ->
                  length (outputs (main table e))
                  = 3 + length (filter (present e) table)) /\
                 length (outputs (main table e))
                 <= 3 + length (filter (present e) table) /\
                 (forall c text' core,
                     files e AI_INSTRUCTIONS_FILE = Some (c :: text') ->
                     extractCoreStandards (c :: text') = inr core ->
                     outputs (main table e) =
                     firstn (writtenCount table e (c :: text') core)
                       (renderAll table e (c :: text') core))).
  { intros E O Hno. rewrite E, O. cbn [length].
    split; [now right|]. split; [split|split; [|split]].
    - discriminate.
    - intros [c [text' [core [Hf [Hc _]]]]]. exfalso. exact (Hno _ _ _ Hf Hc).
    - discriminate.
    - lia.
    - intros c text' core Hf Hc. exfalso. exact (Hno _ _ _ Hf Hc). }
  destruct (files e AI_INSTRUCTIONS_FILE) as [[|c text']|] eqn:Hf.
  - apply Hbad; try (rewrite main_unreadable by (now rewrite Hf); reflexivity).
    intros; discriminate.
  - destruct (extractCoreStandards (c :: text')) as [err|core] eqn:Hc.
    + apply Hbad;
        try (rewrite (@main_malformed table e c text' err Hf Hc); reflexivity).
      intros c0 t0 core0 H1 H2. injection H1 as <- <-. congruence.
    + clear Hbad. rewrite (@main_valid table e c text' core Hf Hc).
      pose proof (validRun_exit_code table e (c :: text') core) as Hiff.
      pose proof (validRun_exit_code_eq table e (c :: text') core) as Heq.
      pose proof (renderAll_length table e (c :: text') core) as Hlen.
      split; [|split; [split|split; [|split]]].
      * rewrite Heq.
        destruct (Nat.eqb _ _); [now left | now right].
      * intros H0. exists c, text', core.
        split; [reflexivity|]. split; [exact Hc|]. now apply Hiff.
      * intros [c0 [t0 [core0 [H1 [H2 H3]]]]]. injection H1 as <- <-.
        assert (core0 = core) by congruence. subst core0. now apply Hiff.
      * intros H0. apply Hiff in H0. unfold validRun. cbn [outputs].
        rewrite H0, firstn_all. exact Hlen.
      * unfold validRun. cbn [outputs]. rewrite length_firstn. lia.
      * intros c0 t0 core0 H1 H2. injection H1 as <- <-.
        assert (core0 = core) by congruence. subst core0. reflexivity.
  - apply Hbad; try (rewrite main_unreadable by (now rewrite Hf); reflexivity).
    intros; discriminate.
Qed.

Lemma entries_by_info (line : LoadedRule -> jsstring)
    (rules1 rules2 : list LoadedRule) :
  (forall r, line r = line {| info := info r; content := [] |}) ->
  map info rules1 = map info rules2 ->
  map line rules1 = map line rules2.
Proof.
  intros Hline.
  revert rules2; induction rules1 as [|r1 rules1 IH];
    intros [|r2 rules2] H; try discriminate; [reflexivity|].
  cbn [map] in *. injection H as H1 H2.
  rewrite (Hline r1), (Hline r2), H1. f_equal. now apply IH.
Qed.

Lemma listedOutputs_by_info (stamp1 stamp2 core : jsstring) (md : Metadata)
    (rules1 rules2 : list LoadedRule) :
  map info rules1 = map info rules2 ->
  firstn 3 (listedOutputs stamp1 stamp2 core md rules1) =
  firstn 3 (listedOutputs stamp1 stamp2 core md rules2) /\
  map fst (listedOutputs stamp1 stamp2 core md rules1) =
  map fst (listedOutputs stamp1 stamp2 core md rules2).
Proof.
  intros H. unfold listedOutputs, listedDocument. cbn [firstn app].
  rewrite (@entries_by_info linkedEntry rules1 rules2) by (auto; reflexivity).
  rewrite (@entries_by_info plainEntry rules1 rules2) by (auto; reflexivity).
  rewrite (@entries_by_info cursorSeeEntry rules1 rules2) by (auto; reflexivity).
  rewrite (@entries_by_info cursorFromEntry rules1 rules2) by (auto; reflexivity).
  split; [reflexivity|]. cbn [map fst]. do 3 f_equal.
  rewrite !map_map.
  apply (@entries_by_info (fun r => fst (mdcOutput r)) rules1 rules2);
    [reflexivity | exact H].
Qed.

Lemma successes_ext (ok1 ok2 : list jsstring -> jsstring -> bool)
    (done targets : list jsstring) :
  (forall d p, ok1 d p = ok2 d p) ->
  successes ok1 done targets = successes ok2 done targets.
Proof.
  intros H. revert done; induction targets as [|p rest IH]; intros done;
    [reflexivity|].
  cbn [successes]. now rewrite H, IH.
Qed.

Lemma firstn_firstn_eq {A} (l1 l2 : list A) (m k : nat) :
  firstn m l1 = firstn m l2 ->
  firstn m (firstn k l1) = firstn m (firstn k l2).
Proof.
  intros H. rewrite !firstn_firstn.
  destruct (Nat.le_gt_cases m k) as [Hle|Hgt].
  - now rewrite Nat.min_l by exact Hle.
  - rewrite Nat.min_r by lia.
    rewrite <- (Nat.min_l k m) by lia.
    rewrite <- !firstn_firstn. now rewrite H.
Qed.

(** X9: the three aggregate documents and the names of all written files
    depend on the topic files only through which of them are readable and not
    empty: two runs on the same canonical document and clock, with the same
    topics present and the same writes going through, end with the same exit
    code and write the same aggregate documents and the same file names,
    whatever the topic files contain. *)
Theorem X9_aggregates_ignore_topic_texts (table : list RuleTopic)
    (e1 e2 : Env) :
  files e1 AI_INSTRUCTIONS_FILE = files e2 AI_INSTRUCTIONS_FILE ->
  (forall k, clock e1 k = clock e2 k) ->
  (forall done path, writable e1 done path = writable e2 done path) ->
  (forall t, In t table -> present e1 t = present e2 t) ->
  exit_code (main table e1) = exit_code (main table e2) /\
  firstn 3 (outputs (main table e1)) = firstn 3 (outputs (main table e2)) /\
  map fst (outputs (main table e1)) = map fst (outputs (main table e2)).
Proof.
  intros Hai Hclock Hw Hpres.
  destruct (files e1 AI_INSTRUCTIONS_FILE) as [[|c text']|] eqn:Hf1;
    symmetry in Hai.
  - rewrite (main_unreadable table e1), (main_unreadable table e2)
      by (rewrite ?Hf1, ?Hai; reflexivity).
    now repeat split.
  - destruct (extractCoreStandards (c :: text')) as [err|core] eqn:Hc.
    + rewrite (@main_malformed table e1 c text' err Hf1 Hc).
      rewrite (@main_malformed table e2 c text' err Hai Hc). now repeat split.
    + rewrite (@main_valid table e1 c text' core Hf1 Hc).
      rewrite (@main_valid table e2 c text' core Hai Hc).
      set (text := c :: text').
      assert (Hmd : metadataOf e1 text = metadataOf e2 text)
        by (unfold metadataOf; now rewrite Hclock).
      assert (Hinfo : map info (loadedRules (files e1) table)
                      = map info (loadedRules (files e2) table))
        by (rewrite !loadedRules_info; apply filter_ext_in; exact Hpres).
      destruct (@listedOutputs_by_info
                  (toISOString (clock e1 (metadataTicks text)))
                  (toISOString (clock e1 (S (metadataTicks text)))) core
                  (metadataOf e1 text) _ _ Hinfo) as [H3 Hpaths].
      rewrite <- !renderAll_listed in H3, Hpaths.
      assert (Hr2 : listedOutputs (toISOString (clock e1 (metadataTicks text)))
                      (toISOString (clock e1 (S (metadataTicks text)))) core
                      (metadataOf e1 text) (loadedRules (files e2) table)
                    = renderAll table e2 text core)
        by (rewrite renderAll_listed, Hmd, !Hclock; reflexivity).
      rewrite Hr2 in H3, Hpaths.
      assert (Hlen : length (renderAll table e1 text core)
                     = length (renderAll table e2 text core))
        by (rewrite <- (length_map fst), Hpaths; apply length_map).
      assert (Hk : writtenCount table e1 text core
                   = writtenCount table e2 text core).
      { unfold writtenCount. rewrite Hpaths. now apply successes_ext. }
      split; [|split].
      * rewrite !validRun_exit_code_eq. now rewrite Hk, Hlen.
      * unfold validRun. cbn [outputs]. rewrite Hk.
        now apply firstn_firstn_eq.
      * unfold validRun. cbn [outputs].
        now rewrite <- !firstn_map, Hpaths, Hk.
  - rewrite (main_unreadable table e1), (main_unreadable table e2)
      by (rewrite ?Hf1, ?Hai; reflexivity).
    now repeat split.
Qed.

(** The theorem at two file systems that differ in the topic texts. *)
Lemma X9_witness :
  exit_code (main [topicA; topicB; topicC] fullEnv) =
    exit_code (main [topicA; topicB; topicC] editedEnv) /\
  firstn 3 (outputs (main [topicA; topicB; topicC] fullEnv)) =
    firstn 3 (outputs (main [topicA; topicB; topicC] editedEnv)) /\
  map fst (outputs (main [topicA; topicB; topicC] fullEnv)) =
    map fst (outputs (main [topicA; topicB; topicC] editedEnv)).
Proof.
  apply (@X9_aggregates_ignore_topic_texts [topicA; topicB; topicC]
           fullEnv editedEnv).
  - reflexivity.
  - intros k. reflexivity.
  - intros done path. reflexivity.
  - intros t [<-|[<-|[<-|[]]]]; reflexivity.
Defined.

Lemma distinctb_NoDup (l : list jsstring) : distinctb l = true -> NoDup l.
Proof.
  induction l as [|x l IH]; intros H; [constructor|].
  cbn [distinctb] in H. apply andb_true_iff in H as [Hx Hl].
  constructor; [|now apply IH].
  intros Hin. apply negb_true_iff in Hx.
  assert (Hex : existsb (eqs x) l = true).
  { apply existsb_exists. exists x. split; [exact Hin | now apply eqs_iff]. }
  congruence.
Qed.

Lemma NoDup_app_apart {A} (l1 l2 : list A) (a : A) :
  NoDup (l1 ++ l2) -> In a l1 -> ~ In a l2.
Proof.
  induction l1 as [|x l1 IH]; [contradiction|].
  cbn [app]. intros H [->|Hin] Hin2.
  - apply NoDup_cons_iff in H as [H _]. apply H, in_or_app. now right.
  - apply NoDup_cons_iff in H as [_ H]. now apply (IH H Hin).
Qed.

Lemma in_map_filter {A B} (g : A -> B) (f : A -> bool) (l : list A) (x : B) :
  In x (map g (filter f l)) -> In x (map g l).
Proof.
  intros H. apply in_map_iff in H as [y [<- Hy]].
  apply filter_In in Hy as [Hy _]. now apply in_map.
Qed.

Lemma NoDup_map_filter {A B} (g : A -> B) (f : A -> bool) (l : list A) :
  NoDup (map g l) -> NoDup (map g (filter f l)).
Proof.
  induction l as [|t l IH]; [trivial|]. cbn [map filter].
  intros H. apply NoDup_cons_iff in H as [Hn Hl].
  destruct (f t); [|now apply IH].
  cbn [map]. constructor; [|now apply IH].
  intros Hin. now apply Hn, in_map_filter with (f := f).
Qed.

Lemma In_firstn {A} (x : A) (k : nat) (l : list A) :
  In x (firstn k l) -> In x l.
Proof.
  intros H. rewrite <- (firstn_skipn k l). apply in_or_app. now left.
Qed.

Lemma NoDup_firstn {A} (k : nat) (l : list A) :
  NoDup l -> NoDup (firstn k l).
Proof.
  intros H. rewrite <- (firstn_skipn k l) in H.
  now apply NoDup_app_remove_r in H.
Qed.

Lemma written_paths (table : list RuleTopic) (e : Env) :
  exists k,
    map fst (outputs (main table e)) =
    firstn k
      ([COPILOT_FILE; REPLIT_FILE; CURSOR_MAIN_FILE]
       ++ map (fun t => path_join CURSOR_RULES_DIR (key t ++ lit ".mdc"))
            (filter (present e) table)).
Proof.
  destruct (files e AI_INSTRUCTIONS_FILE) as [[|c text']|] eqn:Hf.
  - exists 0. now rewrite main_unreadable by now rewrite Hf.
  - destruct (extractCoreStandards (c :: text')) as [err|core] eqn:Hc.
    + exists 0. now rewrite (@main_malformed table e c text' err Hf Hc).
    + exists (writtenCount table e (c :: text') core).
      rewrite (@main_valid table e c text' core Hf Hc).
      unfold validRun. cbn [outputs]. rewrite <- firstn_map. f_equal.
      unfold renderAll. rewrite map_app. cbn [map fst]. do 3 f_equal.
      rewrite map_map. unfold present. rewrite <- loadedRules_info, map_map.
      reflexivity.
  - exists 0. now rewrite main_unreadable by now rewrite Hf.
Qed.

(** X10: with the topic table of the script, a run never writes a file it
    reads (AI_INSTRUCTIONS.md or a topic file under docs/rules/), never writes
    the same file twice, and writes only the three aggregate files and the
    .mdc files of the seven topics. *)
Theorem X10_written_paths_are_safe (e : Env) :
  NoDup (map fst (outputs (main RULE_FILES e))) /\
  (forall p, In p (map fst (outputs (main RULE_FILES e))) ->
             In p outputPaths /\ ~ In p inputPaths).
Proof.
  assert (Hall : NoDup (outputPaths ++ inputPaths))
    by (apply distinctb_NoDup; vm_compute; reflexivity).
  destruct (written_paths RULE_FILES e) as [k Hk].
  assert (Hsub : forall p, In p (map fst (outputs (main RULE_FILES e))) ->
                           In p outputPaths).
  { intros p Hp. rewrite Hk in Hp. apply In_firstn in Hp.
    unfold outputPaths. apply in_app_or in Hp as [Hp|Hp]; apply in_or_app;
      [now left | right]. now apply in_map_filter in Hp. }
  split.
  - rewrite Hk. apply NoDup_firstn.
    apply NoDup_app_remove_r in Hall. unfold outputPaths in Hall.
    apply NoDup_app.
    + now apply NoDup_app_remove_r in Hall.
    + apply NoDup_map_filter. now apply NoDup_app_remove_l in Hall.
    + intros a Ha Hin. apply in_map_filter in Hin.
      now apply (@NoDup_app_apart _ _ _ a Hall Ha).
  - intros p Hp. split; [now apply Hsub|].
    apply (@NoDup_app_apart _ _ _ p Hall). now apply Hsub.
Qed.

Lemma loadLog_ruleLine (e : Env) (t : RuleTopic) :
  filter isRuleLine (loadLog (files e) t) = [ruleLine e t].
Proof.
  unfold loadLog, ruleLine, present.
  destruct (files e (rulePath t)) as [[|c text]|]; reflexivity.
Qed.

Lemma flat_map_single {A B} (f : A -> B) (l : list A) :
  flat_map (fun x => [f x]) l = map f l.
Proof.
  induction l as [|x l IH]; [reflexivity|]. cbn [flat_map map app].
  now rewrite IH.
Qed.

Lemma filter_drops {A} (f : A -> bool) (l : list A) :
  (forall x, In x l -> f x = false) -> filter f l = [].
Proof.
  induction l as [|x l IH]; intros H; [reflexivity|]. cbn [filter].
  rewrite (H x) by now left. apply IH. intros y Hy. apply H. now right.
Qed.

Lemma validRun_ruleLines (table : list RuleTopic) (e : Env)
    (text core : jsstring) :
  filter isRuleLine (log (validRun table e text core)) =
  map (ruleLine e) table.
Proof.
  unfold validRun, loadPhaseLog. cbn [log].
  assert (H1 : filter isRuleLine (flat_map (loadLog (files e)) table)
               = map (ruleLine e) table).
  { rewrite filter_flat_map.
    rewrite (flat_map_ext _ _ (loadLog_ruleLine e)).
    apply flat_map_single. }
  assert (H2 : forall k,
             filter isRuleLine
               (stepsLog k (writeSteps (loadedRules (files e) table))) = []).
  { intros k. apply filter_drops. intros l Hl.
    apply stepsLog_lines in Hl as [Hl|[path ->]]; [|reflexivity].
    cbn [In] in Hl. destruct Hl as [<-|[<-|[<-|[<-|[]]]]]; reflexivity. }
  rewrite !filter_app, H1, H2. cbn [filter isRuleLine app].
  destruct (nth_error (renderAll table e text core)
              (writtenCount table e text core));
    cbn [filter isRuleLine]; now rewrite !app_nil_r.
Qed.

(** X11: a run on a readable, non-empty canonical document with both
    markers reports every topic of the table exactly once on the console, in
    table order, as read when its file is readable and not empty and as
    skipped otherwise, also when a later write throws; a run that stops
    at the canonical document reports no topic at all. *)
Theorem X11_one_console_line_per_topic (table : list RuleTopic) (e : Env) :
  filter isRuleLine (log (main table e)) =
  match files e AI_INSTRUCTIONS_FILE with
  | Some (c :: text') =>
      match extractCoreStandards (c :: text') with
      | inr _ => map (ruleLine e) table
      | inl _ => []
      end
  | _ => []
  end.
Proof.
  destruct (files e AI_INSTRUCTIONS_FILE) as [[|c text']|] eqn:Hf.
  - rewrite main_unreadable by now rewrite Hf. now rewrite Hf.
  - destruct (extractCoreStandards (c :: text')) as [err|core] eqn:Hc.
    + now rewrite (@main_malformed table e c text' err Hf Hc).
    + rewrite (@main_valid table e c text' core Hf Hc).
      apply validRun_ruleLines.
  - rewrite main_unreadable by now rewrite Hf. now rewrite Hf.
Qed.

End RunsMore.

(** ** More on the per-topic files *)

Section MdcMore.

Lemma dropWhile_app_all (f : N -> bool) (x y : jsstring) :
  forallb f x = true -> dropWhile f (x ++ y) = dropWhile f y.
Proof.
  induction x as [|c x IH]; [reflexivity|]. cbn [forallb app dropWhile].
  intros H. apply andb_true_iff in H as [Hc Hx]. rewrite Hc. now apply IH.
Qed.

Lemma dropWhile_app_stop (f : N -> bool) (x y : jsstring) :
  existsb (fun c => negb (f c)) x = true ->
  dropWhile f (x ++ y) = dropWhile f x ++ y.
Proof.
  induction x as [|c x IH]; [discriminate|]. cbn [existsb app dropWhile].
  destruct (f c); cbn [negb orb]; [exact IH | reflexivity].
Qed.

Lemma forallb_rev (f : N -> bool) (l : jsstring) :
  forallb f (rev l) = forallb f l.
Proof.
  induction l as [|x l IH]; [reflexivity|]. cbn [rev forallb].
  rewrite forallb_app, IH. cbn [forallb]. rewrite andb_true_r.
  apply andb_comm.
Qed.

Lemma existsb_rev (f : N -> bool) (l : jsstring) :
  existsb f (rev l) = existsb f l.
Proof.
  induction l as [|x l IH]; [reflexivity|]. cbn [rev existsb].
  rewrite existsb_app, IH. cbn [existsb]. rewrite orb_false_r.
  apply orb_comm.
Qed.

Lemma not_existsb_nonWhite (l : jsstring) :
  existsb nonWhite l = false -> forallb isWhiteSpace l = true.
Proof.
  induction l as [|x l IH]; [reflexivity|]. cbn [existsb forallb].
  unfold nonWhite at 1. intros H. apply orb_false_iff in H as [Hx Hl].
  apply negb_false_iff in Hx. now rewrite Hx, IH.
Qed.

Lemma trimEnd_app_white (a b : jsstring) :
  forallb isWhiteSpace b = true -> trimEnd (a ++ b) = trimEnd a.
Proof.
  intros H. unfold trimEnd. rewrite rev_app_distr.
  rewrite dropWhile_app_all; [reflexivity|]. now rewrite forallb_rev.
Qed.

Lemma trimEnd_app_nonWhite (a b : jsstring) :
  existsb nonWhite b = true -> trimEnd (a ++ b) = a ++ trimEnd b.
Proof.
  intros H. unfold trimEnd. rewrite rev_app_distr.
  rewrite dropWhile_app_stop.
  - now rewrite rev_app_distr, rev_involutive.
  - fold nonWhite. now rewrite existsb_rev.
Qed.

Lemma trimEnd_white (r : jsstring) :
  forallb isWhiteSpace r = true -> trimEnd r = [].
Proof.
  intros H. unfold trimEnd. rewrite dropWhile_all; [reflexivity|].
  now rewrite forallb_rev.
Qed.

Lemma trimEnd_idem (r : jsstring) : trimEnd (trimEnd r) = trimEnd r.
Proof.
  unfold trimEnd. now rewrite rev_involutive, dropWhile_idem.
Qed.

Lemma trimEnd_prefix (r : jsstring) : exists b, r = trimEnd r ++ b.
Proof.
  unfold trimEnd.
  destruct (dropWhile_suffix isWhiteSpace (rev r)) as [a Ha].
  exists (rev a). rewrite <- rev_app_distr, <- Ha. now rewrite rev_involutive.
Qed.

Lemma trimEnd_keeps_first (c : N) (r : jsstring) :
  isWhiteSpace c = false -> exists z, trimEnd (c :: r) = c :: z.
Proof.
  intros Hc. change (c :: r) with ([c] ++ r).
  destruct (existsb nonWhite r) eqn:E.
  - rewrite trimEnd_app_nonWhite by exact E. now eexists.
  - rewrite trimEnd_app_white by now apply not_existsb_nonWhite.
    exists []. unfold trimEnd. cbn [rev app dropWhile]. now rewrite Hc.
Qed.

Lemma trim_trimEnd (r : jsstring) : trim (trimEnd r) = trim r.
Proof.
  destruct (existsb nonWhite r) eqn:E.
  - pose proof (takeWhile_dropWhile isWhiteSpace r) as Hr.
    pose proof (takeWhile_all isWhiteSpace r) as Hw.
    set (w := takeWhile isWhiteSpace r) in *.
    set (r' := dropWhile isWhiteSpace r) in *.
    assert (E' : existsb nonWhite r' = true).
    { rewrite Hr, existsb_app in E.
      destruct (existsb nonWhite w) eqn:Ew; [|exact E].
      apply existsb_exists in Ew as [x [Hx Hn]].
      rewrite forallb_forall in Hw. specialize (Hw x Hx).
      unfold nonWhite in Hn. rewrite Hw in Hn. discriminate. }
    assert (Hfix : dropWhile isWhiteSpace r' = r')
      by (unfold r'; apply dropWhile_idem).
    assert (Hstart : trimStart (trimEnd r') = trimEnd r').
    { destruct r' as [|c r'']; [discriminate|].
      assert (Hc : isWhiteSpace c = false)
        by exact (@dropWhile_fixed_head isWhiteSpace c r'' Hfix).
      destruct (@trimEnd_keeps_first c r'' Hc) as [z Hz]. rewrite Hz.
      unfold trimStart. cbn [dropWhile]. now rewrite Hc. }
    unfold trim at 1. rewrite Hr at 1.
    rewrite trimEnd_app_nonWhite by exact E'.
    unfold trimStart at 1. rewrite dropWhile_app_all by exact Hw.
    fold (trimStart (trimEnd r')). rewrite Hstart, trimEnd_idem.
    reflexivity.
  - apply not_existsb_nonWhite in E.
    now rewrite (trimEnd_white r E), (trim_white r E).
Qed.

Lemma afterFirstLine_app (h rest : jsstring) :
  forallb notLineFeed h = true -> afterFirstLine (h ++ nl ++ rest) = rest.
Proof.
  induction h as [|c h IH]; [reflexivity|].
  cbn [forallb app afterFirstLine]. unfold notLineFeed at 1.
  intros H. apply andb_true_iff in H as [Hc Hh].
  apply negb_true_iff in Hc. rewrite Hc. now apply IH.
Qed.

Lemma afterFirstLine_none (h : jsstring) :
  forallb notLineFeed h = true -> afterFirstLine h = [].
Proof.
  induction h as [|c h IH]; [reflexivity|].
  cbn [forallb afterFirstLine]. unfold notLineFeed at 1.
  intros H. apply andb_true_iff in H as [Hc Hh].
  apply negb_true_iff in Hc. rewrite Hc. now apply IH.
Qed.

Lemma heading_body (ws title rest : jsstring) :
  forallb isWhiteSpace ws = true ->
  forallb notLineFeed title = true ->
  existsb nonWhite title = true ->
  mdcBody (ws ++ lit "# " ++ title ++ nl ++ rest) = trim rest.
Proof.
  intros Hws Hlf Hnw. rewrite mdcBody_eq.
  assert (Htrim : trim (ws ++ lit "# " ++ title ++ nl ++ rest)
                  = trimEnd (lit "# " ++ title ++ nl ++ rest)).
  { unfold trim. f_equal. unfold trimStart.
    now rewrite dropWhile_app_all by exact Hws. }
  rewrite Htrim. clear Htrim.
  assert (Hhead : forallb notLineFeed (lit "# " ++ title) = true)
    by (rewrite forallb_app, Hlf; reflexivity).
  destruct (existsb nonWhite rest) eqn:E.
  - replace (lit "# " ++ title ++ nl ++ rest)
      with ((lit "# " ++ title ++ nl) ++ rest) by now rewrite <- !app_assoc.
    rewrite trimEnd_app_nonWhite by exact E.
    rewrite <- !app_assoc. rewrite startsWith_app.
    rewrite (app_assoc (lit "# ") title).
    rewrite (afterFirstLine_app _ _ Hhead).
    apply trim_trimEnd.
  - apply not_existsb_nonWhite in E.
    replace (lit "# " ++ title ++ nl ++ rest)
      with ((lit "# " ++ title) ++ nl ++ rest) by now rewrite <- !app_assoc.
    rewrite trimEnd_app_white
      by (rewrite forallb_app, E; reflexivity).
    rewrite trimEnd_app_nonWhite by exact Hnw.
    rewrite startsWith_app.
    rewrite afterFirstLine_none.
    + now rewrite (trim_white rest E).
    + rewrite forallb_app. cbn [lit forallb].
      destruct (trimEnd_prefix title) as [b Hb].
      rewrite Hb, forallb_app in Hlf.
      apply andb_true_iff in Hlf as [Hlf _]. now rewrite Hlf.
Qed.

(** X12: a topic whose first line with text is a heading "# title" loses
    that line: the .mdc file is the frontmatter followed by the rest of the
    topic, trimmed.  Blank lines before the heading do not protect it, and a
    second heading at the start of the rest is kept. *)
Theorem X12_heading_line_removed (ws title rest ruleName description : jsstring) :
  forallb isWhiteSpace ws = true ->
  forallb notLineFeed title = true ->
  existsb nonWhite title = true ->
  generateMdcContent (ws ++ lit "# " ++ title ++ nl ++ rest)
    ruleName description =
  frontmatter description ++ trim rest.
Proof.
  intros Hws Hlf Hnw. unfold generateMdcContent.
  now rewrite heading_body.
Qed.

(** The theorem at a topic with blank lines, a heading and a second
    heading. *)
Lemma X12_witness :
  generateMdcContent
    ((nl ++ nl) ++ lit "# " ++ lit "Testing" ++ nl
     ++ (nl ++ lit "# Second" ++ nl ++ lit "body" ++ nl))
    (lit "Testing") (lit "d") =
  frontmatter (lit "d") ++ lit "# Second" ++ nl ++ lit "body".
Proof.
  apply (@X12_heading_line_removed (nl ++ nl) (lit "Testing")
           (nl ++ lit "# Second" ++ nl ++ lit "body" ++ nl)
           (lit "Testing") (lit "d"));
    reflexivity.
Defined.

(** X13: the body of a .mdc file never begins or ends with white space:
    the file is the frontmatter followed by a text that trimming leaves
    unchanged, so a generated file does not end with a line feed unless its
    body is empty. *)
Theorem X13_mdc_body_is_trimmed (ruleContent ruleName description : jsstring) :
  exists body,
    generateMdcContent ruleContent ruleName description =
      frontmatter description ++ body /\
    trim body = body /\
    (forall r c, body = r ++ [c] -> isWhiteSpace c = false).
Proof.
  exists (mdcBody ruleContent). split; [reflexivity|].
  assert (H : exists x, mdcBody ruleContent = trim x).
  { rewrite mdcBody_eq.
    destruct (startsWith (lit "# ") (trim ruleContent)); now eexists. }
  destruct H as [x ->]. split; [apply trim_idem|].
  intros r c H. now apply trim_last in H.
Qed.

(** X14: a topic file that holds nothing but white space is not empty, so
    it is loaded, and its .mdc file is the frontmatter alone. *)
Theorem X14_blank_topic (ruleContent ruleName description : jsstring)
    (c : N) (text : jsstring) :
  ruleContent = c :: text ->
  forallb isWhiteSpace ruleContent = true ->
  truthy (Some ruleContent) = true /\
  generateMdcContent ruleContent ruleName description =
  frontmatter description.
Proof.
  intros -> Hw. split; [reflexivity|].
  unfold generateMdcContent. rewrite mdcBody_eq.
  rewrite (trim_white _ Hw). cbn [startsWith lit].
  change (startsWith (lit "# ") []) with false. cbv iota.
  apply app_nil_r.
Qed.

Lemma X14_witness :
  truthy (Some (nl ++ lit "  " ++ nl)) = true /\
  generateMdcContent (nl ++ lit "  " ++ nl) (lit "Blank") (lit "d") =
  frontmatter (lit "d").
Proof.
  apply (@X14_blank_topic (nl ++ lit "  " ++ nl) (lit "Blank") (lit "d")
           10%N (lit "  " ++ nl));
    reflexivity.
Defined.

End MdcMore.

(** ** Consistency of the written files *)

Section Consistency.

Lemma contains_concat_map {A} (f : A -> jsstring) (l : list A) (x : A)
    (p : jsstring) :
  In x l -> contains p (f x) -> contains p (concat (map f l)).
Proof.
  induction l as [|y l IH]; [contradiction|].
  cbn [map concat]. intros [->|Hin] Hp.
  - now apply contains_app_r.
  - apply contains_app_l. now apply IH.
Qed.

Lemma contains_first_index (head middle closing p : jsstring)
    (line1 line2 : LoadedRule -> jsstring) (rules : list LoadedRule)
    (r : LoadedRule) :
  In r rules -> contains p (line1 r) ->
  contains p (listedDocument head line1 middle line2 closing rules).
Proof.
  intros Hin Hp. unfold listedDocument.
  apply contains_app_l, contains_app_r.
  now apply contains_concat_map with (x := r).
Qed.

Lemma linkedEntry_path (r : LoadedRule) :
  contains (rulePath (info r)) (linkedEntry r).
Proof.
  exists (lit "- **" ++ name (info r) ++ lit "**: ["),
         (lit "](docs/rules/" ++ file (info r) ++ lit ")" ++ nl).
  unfold linkedEntry, rulePath, path_join, RULES_DIR.
  change (lit "**: [docs/rules/")
    with (lit "**: [" ++ lit "docs/rules" ++ lit "/").
  now rewrite <- !app_assoc.
Qed.

Lemma cursorSeeEntry_path (r : LoadedRule) :
  contains (mdcPath r) (cursorSeeEntry r).
Proof.
  exists (lit "- **" ++ name (info r) ++ lit "**: See `"), (lit "`" ++ nl).
  unfold cursorSeeEntry, mdcPath, path_join, CURSOR_RULES_DIR.
  change (lit "**: See `.cursor/rules/")
    with (lit "**: See `" ++ lit ".cursor/rules" ++ lit "/").
  change (lit ".mdc`") with (lit ".mdc" ++ lit "`").
  now rewrite <- !app_assoc.
Qed.

(** X15: the Copilot document and the Replit document rendered for the same
    timestamp differ in their title and in nothing else. *)
Theorem X15_copilot_and_replit_agree (now core : jsstring)
    (rules : list LoadedRule) (md : Metadata) :
  exists body,
    copilotDocument now core rules md =
      lit "# GitHub Copilot Instructions" ++ body /\
    replitDocument now core rules md =
      lit "# Replit AI Instructions" ++ body.
Proof.
  rewrite copilotDocument_index, replitDocument_index.
  unfold listedDocument, aggregateHead.
  eexists. split; rewrite <- !app_assoc; reflexivity.
Qed.

(** X16: the references of a run that ends with exit code 0 do not
    dangle.  Every per-topic file the run has written is named in the Cursor
    main file, and for every topic whose file is readable and not empty the
    Copilot and the Replit document name that file under docs/rules/ and the
    run has written the topic's .mdc file. *)
Theorem X16_references_are_written (table : list RuleTopic) (e : Env)
    (c : N) (text' core : jsstring) :
  files e AI_INSTRUCTIONS_FILE = Some (c :: text') ->
  extractCoreStandards (c :: text') = inr core ->
  exit_code (main table e) = 0%N ->
  exists copilot replit cursor perTopic,
    outputs (main table e) =
      (COPILOT_FILE, copilot) :: (REPLIT_FILE, replit)
      :: (CURSOR_MAIN_FILE, cursor) :: perTopic /\
    (forall p, In p (map fst perTopic) -> contains p cursor) /\
    (forall t, In t table -> present e t = true ->
       contains (rulePath t) copilot /\ contains (rulePath t) replit /\
       In (path_join CURSOR_RULES_DIR (key t ++ lit ".mdc"))
          (map fst perTopic)).
Proof.
  intros Hf Hc H0.
  rewrite (@main_success table e c text' core Hf Hc H0). cbn [outputs].
  rewrite renderAll_listed. unfold listedOutputs. cbn [app].
  set (rules := loadedRules (files e) table).
  eexists; eexists; eexists; eexists. split; [reflexivity|]. split.
  - intros p Hp. rewrite map_map in Hp.
    apply in_map_iff in Hp as [r [<- Hr]]. cbn [mdcOutput fst].
    apply contains_first_index with (r := r); [exact Hr|].
    apply cursorSeeEntry_path.
  - intros t Ht Hpres.
    assert (Hr : exists r, In r rules /\ info r = t).
    { assert (Hin : In t (map info rules)).
      { unfold rules. rewrite loadedRules_info. apply filter_In.
        now split. }
      apply in_map_iff in Hin as [r [Hi Hr]]. now exists r. }
    destruct Hr as [r [Hr <-]]. split; [|split].
    + apply contains_first_index with (r := r); [exact Hr|].
      apply linkedEntry_path.
    + apply contains_first_index with (r := r); [exact Hr|].
      apply linkedEntry_path.
    + rewrite map_map. apply in_map_iff. exists r. now split.
Qed.

Lemma X16_witness :
  exists copilot replit cursor perTopic,
    outputs (main [topicA; topicB; topicC] fullEnv) =
      (COPILOT_FILE, copilot) :: (REPLIT_FILE, replit)
      :: (CURSOR_MAIN_FILE, cursor) :: perTopic /\
    (forall p, In p (map fst perTopic) -> contains p cursor) /\
    (forall t, In t [topicA; topicB; topicC] -> present fullEnv t = true ->
       contains (rulePath t) copilot /\ contains (rulePath t) replit /\
       In (path_join CURSOR_RULES_DIR (key t ++ lit ".mdc"))
          (map fst perTopic)).
Proof.
  apply (@X16_references_are_written [topicA; topicB; topicC] fullEnv
           35%N (tl fullDoc) (lit "Core A" ++ nl ++ nl ++ lit "Core B"));
    reflexivity.
Defined.

End Consistency.
